(** * A TCP listener with port retry: Server.hpp / Server.cpp

    The class [Server] owns one listening socket.  Its methods are embedded
    as computations over the pair (object fields, operating system): every
    system call of the source is one operation on a model of the kernel's
    descriptor table and appends one event to a trace, so that statements
    about "how many binds" or "what was sent" are statements about the
    trace. *)

From Stdlib Require Import ZArith String Ascii List Lia.
From stdpp Require Import base option list gmap.

Local Open Scope Z_scope.

(** ** Data *)

(** [struct sockaddr_in], reduced to the three members the code writes.
    [sin_port] holds the 16-bit port number (see [htons]). *)
Record sockaddr_in : Type := mk_sockaddr_in {
  sin_family : Z;
  sin_addr : Z;
  sin_port : Z
}.

(** The private members of [class Server], in declaration order.  The
    [int] members are integers without wrap-around: the only arithmetic on
    them is [m_port + rand() % 10], which stays inside [int] for every
    port the constructor can sensibly be given (signed overflow would be
    undefined, not a wrap). *)
Record Server : Type := mk_Server {
  m_serverSocket : Z;
  m_port : Z;
  m_actualPort : Z;
  m_backlog : Z;
  m_running : bool;
  m_serverAddress : sockaddr_in
}.

(** What the kernel knows about an open descriptor.  A connected socket
    carries the bytes its peer has sent and the server has not read. *)
Inductive sock_state : Type :=
  | Unbound
  | Bound (port : Z)
  | Listening (port backlog : Z)
  | Connected (peer : sockaddr_in) (unread : string).

(** Lines written to standard output by [std::print]. *)
Inductive console : Type :=
  | MsgBound (port : Z)
  | MsgListening (backlog : Z)
  | MsgRunning (port : Z)
  | MsgClientConnected (ip port : Z)
  | MsgClientDisconnected
  | MsgStopped.

(** One entry per system call or library call, in program order. *)
Inductive event : Type :=
  | EvSrand (seed : Z)
  | EvRand (value : Z)
  | EvSocket (ret : Z)
  | EvSetsockopt (fd ret : Z)
  | EvBind (fd port ret : Z)
  | EvListen (fd backlog ret : Z)
  | EvAccept (fd ret : Z)
  | EvSend (fd : Z) (data : string)
  | EvClose (fd ret : Z)
  | EvPerror (msg : string)
  | EvPrint (msg : console).

(** The part of the operating system the server touches: the descriptor
    table, the process-wide state of [rand] (seed and number of draws), and
    the trace. *)
Record World : Type := mk_World {
  fds : gmap Z sock_state;
  rng_seed : Z;
  rng_calls : nat;
  trace : list event
}.

(** What the outside decides: the clock, the generator behind [rand], the
    value [socket] returns, whether [setsockopt] and [listen] succeed, and
    which ports are taken by other processes. *)
Record Env : Type := mk_Env {
  env_time : Z;
  env_rand : Z -> nat -> N;
  env_socket : Z;
  env_setsockopt_ok : bool;
  env_busy : Z -> bool;
  env_listen_ok : bool
}.

Record State : Type := mk_State {
  self : Server;
  world : World
}.

(** One wait in [accept]: whether another thread calls [stop()] while this
    one is blocked, what [accept] then returns, the peer address it fills
    in, and the bytes that peer has sent. *)
Record arrival : Type := mk_arrival {
  stop_called : bool;
  accept_ret : Z;
  accept_peer : sockaddr_in;
  accept_input : string
}.

(** ** Constants of the platform headers *)

Definition AF_INET : Z := 2.
Definition INADDR_ANY : Z := 0.

(** [htons] takes a [uint16_t]: the [int] argument is reduced modulo 2^16.
    The byte order is the wire representation of that number; the model
    keeps the number, so [ntohs] reads it back unchanged. *)
Definition htons (x : Z) : Z := x mod 65536.
Definition ntohs (x : Z) : Z := x mod 65536.

(** ** The monad of the embedding

    A call either returns with a value and a new state, or has not returned
    when the observed behaviour of the environment ends ([Pending]): the
    thread is still blocked in [accept], or a loop ran out of its budget. *)
Inductive outcome (A : Type) : Type :=
  | Returns (a : A) (st : State)
  | Pending (st : State).
Arguments Returns {A} a st.
Arguments Pending {A} st.

Definition M (A : Type) : Type := State -> outcome A.

#[global] Instance M_ret : MRet M := fun A a st => Returns a st.
#[global] Instance M_bind : MBind M := fun A B f m st =>
  match m st with
  | Returns a st' => f a st'
  | Pending st' => Pending st'
  end.

Definition final {A : Type} (o : outcome A) : State :=
  match o with
  | Returns _ st => st
  | Pending st => st
  end.

Definition returned {A : Type} (o : outcome A) : option A :=
  match o with
  | Returns a _ => Some a
  | Pending _ => None
  end.

Definition pending {A : Type} : M A := fun st => Pending st.
Definition gets {A : Type} (f : Server -> A) : M A := fun st => Returns (f (self st)) st.
Definition getw {A : Type} (f : World -> A) : M A := fun st => Returns (f (world st)) st.
Definition modify_self (f : Server -> Server) : M unit :=
  fun st => Returns tt (mk_State (f (self st)) (world st)).
Definition modify_world (f : World -> World) : M unit :=
  fun st => Returns tt (mk_State (self st) (f (world st))).

(** Assignments to the members the code writes. *)
Definition set_serverSocket (v : Z) (s : Server) : Server :=
  mk_Server v (m_port s) (m_actualPort s) (m_backlog s) (m_running s) (m_serverAddress s).
Definition set_actualPort (v : Z) (s : Server) : Server :=
  mk_Server (m_serverSocket s) (m_port s) v (m_backlog s) (m_running s) (m_serverAddress s).
Definition set_running (v : bool) (s : Server) : Server :=
  mk_Server (m_serverSocket s) (m_port s) (m_actualPort s) (m_backlog s) v (m_serverAddress s).
Definition set_serverAddress (v : sockaddr_in) (s : Server) : Server :=
  mk_Server (m_serverSocket s) (m_port s) (m_actualPort s) (m_backlog s) (m_running s) v.

Definition set_sin_family (v : Z) (a : sockaddr_in) : sockaddr_in :=
  mk_sockaddr_in v (sin_addr a) (sin_port a).
Definition set_sin_addr (v : Z) (a : sockaddr_in) : sockaddr_in :=
  mk_sockaddr_in (sin_family a) v (sin_port a).
Definition set_sin_port (v : Z) (a : sockaddr_in) : sockaddr_in :=
  mk_sockaddr_in (sin_family a) (sin_addr a) v.

(** ** The operating system *)

Definition set_fds (f : gmap Z sock_state) (w : World) : World :=
  mk_World f (rng_seed w) (rng_calls w) (trace w).
Definition set_rng (seed : Z) (calls : nat) (w : World) : World :=
  mk_World (fds w) seed calls (trace w).
Definition emit (e : event) (w : World) : World :=
  mk_World (fds w) (rng_seed w) (rng_calls w) (trace w ++ [e]).

Definition log (e : event) : M unit := modify_world (emit e).

Definition perror (msg : string) : M unit := log (EvPerror msg).
Definition print (msg : console) : M unit := log (EvPrint msg).

Section Syscalls.
Variable E : Env.

Definition sys_srand (seed : Z) : M unit :=
  modify_world (set_rng seed 0%nat) ;; log (EvSrand seed).

Definition sys_rand : M Z :=
  seed ← getw rng_seed;
  n ← getw rng_calls;
  let v := Z.of_N (env_rand E seed n) in
  modify_world (set_rng seed (S n)) ;;
  log (EvRand v) ;;
  mret v.

Definition sys_socket : M Z :=
  let fd := env_socket E in
  (if 0 <=? fd then modify_world (fun w => set_fds (<[fd := Unbound]> (fds w)) w)
   else mret tt) ;;
  log (EvSocket fd) ;;
  mret fd.

Definition sys_setsockopt (fd : Z) : M Z :=
  tbl ← getw fds;
  let ret := match tbl !! fd with
             | Some _ => if env_setsockopt_ok E then 0 else -1
             | None => -1
             end in
  log (EvSetsockopt fd ret) ;;
  mret ret.

(** [bind] succeeds on an open, not yet bound socket when no one else
    holds the port named in the address. *)
Definition sys_bind (fd : Z) (addr : sockaddr_in) : M Z :=
  tbl ← getw fds;
  let port := ntohs (sin_port addr) in
  match tbl !! fd with
  | Some Unbound =>
      if env_busy E port then log (EvBind fd port (-1)) ;; mret (-1)
      else modify_world (fun w => set_fds (<[fd := Bound port]> (fds w)) w) ;;
           log (EvBind fd port 0) ;;
           mret 0
  | _ => log (EvBind fd port (-1)) ;; mret (-1)
  end.

Definition sys_listen (fd backlog : Z) : M Z :=
  tbl ← getw fds;
  match tbl !! fd with
  | Some (Bound port) =>
      if env_listen_ok E
      then modify_world (fun w => set_fds (<[fd := Listening port backlog]> (fds w)) w) ;;
           log (EvListen fd backlog 0) ;;
           mret 0
      else log (EvListen fd backlog (-1)) ;; mret (-1)
  | _ => log (EvListen fd backlog (-1)) ;; mret (-1)
  end.

Definition sys_accept (fd : Z) (a : arrival) : M Z :=
  let c := accept_ret a in
  (if 0 <=? c
   then modify_world
          (fun w => set_fds (<[c := Connected (accept_peer a) (accept_input a)]> (fds w)) w)
   else mret tt) ;;
  log (EvAccept fd c) ;;
  mret c.

(** [send(fd, buf, len, 0)]: the request to transmit the first [len]
    bytes of [buf]; the return value is not looked at by the caller. *)
Definition sys_send (fd : Z) (buf : string) (len : nat) : M unit :=
  log (EvSend fd (substring 0 len buf)).

(** [close] on a descriptor that is not open fails (EBADF). *)
Definition sys_close (fd : Z) : M Z :=
  tbl ← getw fds;
  match tbl !! fd with
  | Some _ =>
      modify_world (fun w => set_fds (delete fd (fds w)) w) ;;
      log (EvClose fd 0) ;;
      mret 0
  | None => log (EvClose fd (-1)) ;; mret (-1)
  end.
End Syscalls.

(** ** The canned response *)

Definition CRLF : string := String "013" (String "010" EmptyString).

Definition response : string :=
  String.append "HTTP/1.1 200 OK" (String.append CRLF
  (String.append "Content-Type: text/plain" (String.append CRLF
  (String.append "Content-Length: 13" (String.append CRLF
  (String.append CRLF "Hello, World!")))))).

(** [strlen]: the number of characters before the first NUL. *)
Fixpoint strlen (s : string) : nat :=
  match s with
  | EmptyString => 0%nat
  | String c rest => if Ascii.eqb c zero then 0%nat else S (strlen rest)
  end.

(** ** The methods of [Server] *)

(** [int getPort() const] *)
Definition getPort (s : Server) : Z := m_actualPort s.

Section Methods.
Variable E : Env.

(** [Server::Server(int port, int backlog)]: the member initialisers, the
    [memset] of the address, and the seeding of the global generator. *)
Definition Server_ctor (port backlog : Z) (w : World) : outcome unit :=
  sys_srand (env_time E)
    (mk_State (mk_Server (-1) port port backlog false (mk_sockaddr_in 0 0 0)) w).

Definition createSocket : M bool :=
  fd ← sys_socket E;
  modify_self (set_serverSocket fd) ;;
  s ← gets m_serverSocket;
  if s <? 0 then perror "socket creation failed" ;; mret false
  else
    r ← sys_setsockopt E s;
    if r <? 0 then perror "setsockopt failed" ;; mret false
    else mret true.

(** The [while (bind(...) < 0)] loop of [bindSocket].  The result is
    [false] when the body executes [return false] and [true] when the
    loop condition becomes false.  [fuel] bounds the number of times the
    condition is evaluated. *)
Fixpoint bind_loop (fuel : nat) (attempts : Z) : M bool :=
  match fuel with
  | O => pending
  | S fuel' =>
      fd ← gets m_serverSocket;
      addr ← gets m_serverAddress;
      r ← sys_bind E fd addr;
      if r <? 0 then
        if 10 <=? attempts then perror "bind failed after 10 attempts" ;; mret false
        else
          v ← sys_rand E;
          p ← gets m_port;
          modify_self (set_actualPort (p + Z.rem v 10)) ;;
          ap ← gets m_actualPort;
          modify_self (fun s => set_serverAddress (set_sin_port (htons ap) (m_serverAddress s)) s) ;;
          bind_loop fuel' (attempts + 1)
      else mret true
  end.

Definition bindSocket : M bool :=
  modify_self (fun s => set_serverAddress (set_sin_family AF_INET (m_serverAddress s)) s) ;;
  modify_self (fun s => set_serverAddress (set_sin_addr INADDR_ANY (m_serverAddress s)) s) ;;
  p ← gets m_port;
  modify_self (fun s => set_serverAddress (set_sin_port (htons p) (m_serverAddress s)) s) ;;
  bound ← bind_loop 11 0;
  if (bound : bool) then
    ap ← gets m_actualPort;
    print (MsgBound ap) ;;
    mret true
  else mret false.

Definition listenSocket : M bool :=
  fd ← gets m_serverSocket;
  backlog ← gets m_backlog;
  r ← sys_listen E fd backlog;
  if r <? 0 then perror "listen failed" ;; mret false
  else print (MsgListening backlog) ;; mret true.

Definition start : M bool :=
  ok ← createSocket;
  if negb ok then mret false
  else
    ok ← bindSocket;
    if negb ok then
      fd ← gets m_serverSocket;
      sys_close fd ;;
      mret false
    else
      ok ← listenSocket;
      if negb ok then
        fd ← gets m_serverSocket;
        sys_close fd ;;
        mret false
      else
        modify_self (set_running true) ;;
        mret true.

Definition handleClient (clientSocket : Z) (clientAddr : sockaddr_in) : M unit :=
  let clientIp := sin_addr clientAddr in
  let clientPort := ntohs (sin_port clientAddr) in
  print (MsgClientConnected clientIp clientPort) ;;
  sys_send clientSocket response (strlen response) ;;
  sys_close clientSocket ;;
  print MsgClientDisconnected.

Definition stop : M unit :=
  modify_self (set_running false) ;;
  fd ← gets m_serverSocket;
  if 0 <=? fd then
    sys_close fd ;;
    modify_self (set_serverSocket (-1)) ;;
    print MsgStopped
  else mret tt.

(** The [while (m_running)] loop of [run].  Each element of [script] is
    one wait in [accept]; while the thread is blocked there another
    thread may call [stop()].  When [script] is used up the thread stays
    blocked in [accept]. *)
Fixpoint run_loop (script : list arrival) : M unit :=
  running ← gets m_running;
  if (running : bool) then
    match script with
    | [] => pending
    | a :: rest =>
        fd ← gets m_serverSocket;
        (if stop_called a then stop else mret tt) ;;
        clientSocket ← sys_accept fd a;
        if clientSocket <? 0 then
          still ← gets m_running;
          (if (still : bool) then perror "accept failed" else mret tt) ;;
          run_loop rest
        else
          handleClient clientSocket (accept_peer a) ;;
          run_loop rest
    end
  else mret tt.

Definition run (script : list arrival) : M unit :=
  ap ← gets m_actualPort;
  print (MsgRunning ap) ;;
  run_loop script.
End Methods.

Arguments htons : simpl never.
Arguments ntohs : simpl never.

(** The state a newly constructed server is in. *)
Definition fresh (E : Env) (port backlog : Z) (w : World) : State :=
  final (Server_ctor E port backlog w).

(** ** Observations on traces and on the descriptor table *)

Definition is_bind (e : event) : bool :=
  match e with EvBind _ _ _ => true | _ => false end.
Definition is_perror (e : event) : bool :=
  match e with EvPerror _ => true | _ => false end.

(** Number of calls of [bind] recorded in a trace. *)
Definition bind_attempts (t : list event) : nat := length (List.filter is_bind t).

(** The descriptor held in [m_serverSocket] names a socket that is bound or
    listening. *)
Definition bound_or_listening (st : State) : bool :=
  match fds (world st) !! m_serverSocket (self st) with
  | Some (Bound _) | Some (Listening _ _) => true
  | _ => false
  end.

(** The members no method is meant to write. *)
Definition same_config (st st' : State) : Prop :=
  m_port (self st') = m_port (self st) /\ m_backlog (self st') = m_backlog (self st).

(** A computation that leaves [m_port] and [m_backlog] as they were,
    whether or not it returns. *)
Definition keeps_config {A : Type} (m : M A) : Prop :=
  forall st, same_config st (final (m st)).

(** The world after [close(fd)], and the value [close] returns. *)
Definition close_world (fd : Z) (w : World) : World :=
  match fds w !! fd with
  | Some _ => emit (EvClose fd 0) (set_fds (delete fd (fds w)) w)
  | None => emit (EvClose fd (-1)) w
  end.
Definition close_ret (fd : Z) (w : World) : Z :=
  match fds w !! fd with Some _ => 0 | None => -1 end.

(** Several events appended at once. *)
Definition emit_all (es : list event) (w : World) : World :=
  mk_World (fds w) (rng_seed w) (rng_calls w) (trace w ++ es).

(** What one failed, reported [accept] leaves in the trace. *)
Definition failed_accept (fd : Z) (a : arrival) : list event :=
  [EvAccept fd (accept_ret a); EvPerror "accept failed"].

(** What serving one connection leaves in the trace: the [accept] that
    returned descriptor [c], then the handler's output on [c]. *)
Definition served_trace (fd : Z) (a : arrival) : list event :=
  [EvAccept fd (accept_ret a);
   EvPrint (MsgClientConnected (sin_addr (accept_peer a)) (ntohs (sin_port (accept_peer a))));
   EvSend (accept_ret a) response;
   EvClose (accept_ret a) 0;
   EvPrint MsgClientDisconnected].

(** The world after one connection was accepted on [fd] and served. *)
Definition served (fd : Z) (a : arrival) (w : World) : World :=
  mk_World (delete (accept_ret a) (fds w)) (rng_seed w) (rng_calls w)
           (trace w ++ served_trace fd a).

(** ** The ports tried by the retry loop *)

(** The ports the next [k] retries will put in the address, when [rand] has
    been called [n] times since it was seeded with [seed]: each is
    [m_port + rand() % 10]. *)
Fixpoint candidates (E : Env) (P seed : Z) (n k : nat) : list Z :=
  match k with
  | O => []
  | S k' => (P + Z.rem (Z.of_N (env_rand E seed n)) 10) :: candidates E P seed (S n) k'
  end.

(** What [k] failing retries leave in the trace. *)
Fixpoint retry_trace (E : Env) (fd P seed : Z) (n k : nat) : list event :=
  match k with
  | O => []
  | S k' =>
      EvRand (Z.of_N (env_rand E seed n)) ::
      EvBind fd (htons (P + Z.rem (Z.of_N (env_rand E seed n)) 10)) (-1) ::
      retry_trace E fd P seed (S n) k'
  end.

(** No other process holds the port that [bind] is given for [p]. *)
Definition port_free (E : Env) (p : Z) : bool := negb (env_busy E (htons p)).

(** The first of the ten candidates that is free, if any. *)
Definition first_free (E : Env) (P : Z) (w : World) : option Z :=
  List.find (port_free E) (candidates E P (rng_seed w) (rng_calls w) 10).

(** The members that the bind loop leaves alone. *)
Definition unchanged (st st' : State) : Prop :=
  m_serverSocket (self st') = m_serverSocket (self st) /\
  m_port (self st') = m_port (self st) /\
  m_backlog (self st') = m_backlog (self st) /\
  m_running (self st') = m_running (self st).

(** ** Scenarios

    Concrete surroundings used to run the methods: a process that has no
    descriptor open yet, and several behaviours of the outside.  In all of
    them the clock reads 1000 and [socket] returns descriptor 3. *)
Module Scenario.
Definition boot : World := mk_World ∅ 0 0%nat [].

(** No port is taken and every call succeeds. *)
Definition quiet : Env :=
  mk_Env 1000 (fun _ n => N.of_nat n) 3 true (fun _ => false) true.

(** Every port is taken; [rand] counts 0, 1, 2, ... *)
Definition crowded : Env :=
  mk_Env 1000 (fun _ n => N.of_nat n) 3 true (fun _ => true) true.

(** Only port 8080 is taken; [rand] always returns 7. *)
Definition neighbour : Env :=
  mk_Env 1000 (fun _ _ => 7%N) 3 true (fun p => p =? 8080) true.


(** No port is taken, but [setsockopt] fails. *)
Definition no_reuse : Env :=
  mk_Env 1000 (fun _ n => N.of_nat n) 3 false (fun _ => false) true.

(** The server after a successful [start] on port 8080 with backlog 10. *)
Definition listening : State := final (start quiet (fresh quiet 8080 10 boot)).

(** A wait in [accept] that ends with an error. *)
Definition refused : arrival := mk_arrival false (-1) (mk_sockaddr_in 0 0 0) "".

(** A wait in [accept] during which [stop()] is called. *)
Definition interrupted : arrival := mk_arrival true (-1) (mk_sockaddr_in 0 0 0) "".

(** A client at 127.0.0.1:40000 that has sent a request line. *)
Definition client : arrival :=
  mk_arrival false 4 (mk_sockaddr_in AF_INET 2130706433 40000) "GET / HTTP/1.1".
End Scenario.

(** ** What [start] comes to *)

(** The port the bind loop ends on: the requested port when it is free,
    otherwise the first free candidate, if there is one. *)
Definition bound_port (E : Env) (st : State) : option Z :=
  if env_busy E (htons (m_port (self st)))
  then first_free E (m_port (self st)) (world st)
  else Some (m_port (self st)).

(** Whether every step of [start] goes through. *)
Definition start_succeeds (E : Env) (st : State) : bool :=
  (0 <=? env_socket E) && env_setsockopt_ok E &&
  match bound_port E st with Some _ => true | None => false end &&
  env_listen_ok E.

(** The descriptor table [start] leaves behind. *)
Definition start_fds (E : Env) (st : State) : gmap Z sock_state :=
  let fd := env_socket E in
  if fd <? 0 then fds (world st)
  else if negb (env_setsockopt_ok E) then <[fd := Unbound]> (fds (world st))
  else match bound_port E st with
       | Some c =>
           if env_listen_ok E
           then <[fd := Listening (htons c) (m_backlog (self st))]> (fds (world st))
           else delete fd (fds (world st))
       | None => delete fd (fds (world st))
       end.

(** ** What the accept loop comes to *)

(** The world after one wait in [accept] on [fd], without interference:
    a reported failure, or a served connection. *)
Definition after_arrival (fd : Z) (a : arrival) (w : World) : World :=
  if accept_ret a <? 0 then emit_all (failed_accept fd a) w else served fd a w.

(** The world after a wait in [accept] that ends once the server has been
    stopped: a failure is passed over in silence, a connection is served. *)
Definition after_last_arrival (fd : Z) (a : arrival) (w : World) : World :=
  if accept_ret a <? 0 then emit (EvAccept fd (accept_ret a)) w else served fd a w.



(** ** Exceptions

    [std::print] throws [std::system_error] when the write fails; nothing
    else in the program throws.  Whether a write fails is for the outside
    to decide, from the world at the time of the call and the line to be
    written.  The methods above are the program as it behaves while every
    write succeeds; the module [Throwing] below embeds the same source
    once more with the exceptional exits, for the sake of [main], which
    catches them. *)

(** What [main] itself writes, apart from what the server logs. *)
Inductive main_output : Type :=
  | ToStdout (s : string)
  | ToStderr (s : string).

(** For a line of the server and for a line of [main]: [Some what] when
    the write fails and [std::print] throws an exception whose [what()] is
    [what]. *)
Record Stdio : Type := mk_Stdio {
  print_error : World -> console -> option string;
  main_print_error : World -> main_output -> option string
}.

(** No write ever fails. *)
Definition reliable (io : Stdio) : Prop :=
  (forall w msg, print_error io w msg = None) /\
  (forall w msg, main_print_error io w msg = None).

(** A call returns, has not returned yet, is left by an exception, or
    ends the process through [std::terminate]. *)
Inductive xoutcome (A : Type) : Type :=
  | XReturns (a : A) (st : State)
  | XPending (st : State)
  | XThrows (what : string) (st : State)
  | XTerminates (st : State).
Arguments XReturns {A} a st.
Arguments XPending {A} st.
Arguments XThrows {A} what st.
Arguments XTerminates {A} st.

Definition MX (A : Type) : Type := State -> xoutcome A.

#[global] Instance MX_ret : MRet MX := fun A a st => XReturns a st.
#[global] Instance MX_bind : MBind MX := fun A B f m st =>
  match m st with
  | XReturns a st' => f a st'
  | XPending st' => XPending st'
  | XThrows what st' => XThrows what st'
  | XTerminates st' => XTerminates st'
  end.

Definition xfinal {A : Type} (o : xoutcome A) : State :=
  match o with
  | XReturns _ st => st
  | XPending st => st
  | XThrows _ st => st
  | XTerminates st => st
  end.

(** A computation that cannot throw. *)
Definition lift {A : Type} (m : M A) : MX A := fun st =>
  match m st with
  | Returns a st' => XReturns a st'
  | Pending st' => XPending st'
  end.

(** A function that must not let an exception out (a destructor, the
    function a thread runs): if one escapes, [std::terminate] is called. *)
Definition noexcept {A : Type} (m : MX A) : MX A := fun st =>
  match m st with
  | XThrows _ st' => XTerminates st'
  | o => o
  end.

Module Throwing.
Section Methods.
Variable E : Env.
Variable io : Stdio.

(** [std::print] to standard output. *)
Definition print (msg : console) : MX unit := fun st =>
  match print_error io (world st) msg with
  | Some what => XThrows what st
  | None => lift (print msg) st
  end.

Definition bindSocket : MX bool :=
  lift (modify_self (fun s => set_serverAddress (set_sin_family AF_INET (m_serverAddress s)) s)) ;;
  lift (modify_self (fun s => set_serverAddress (set_sin_addr INADDR_ANY (m_serverAddress s)) s)) ;;
  p ← lift (gets m_port);
  lift (modify_self (fun s => set_serverAddress (set_sin_port (htons p) (m_serverAddress s)) s)) ;;
  bound ← lift (bind_loop E 11 0);
  if (bound : bool) then
    ap ← lift (gets m_actualPort);
    print (MsgBound ap) ;;
    mret true
  else mret false.

Definition listenSocket : MX bool :=
  fd ← lift (gets m_serverSocket);
  backlog ← lift (gets m_backlog);
  r ← lift (sys_listen E fd backlog);
  if r <? 0 then lift (perror "listen failed") ;; mret false
  else print (MsgListening backlog) ;; mret true.

Definition start : MX bool :=
  ok ← lift (createSocket E);
  if negb ok then mret false
  else
    ok ← bindSocket;
    if negb ok then
      fd ← lift (gets m_serverSocket);
      lift (sys_close fd) ;;
      mret false
    else
      ok ← listenSocket;
      if negb ok then
        fd ← lift (gets m_serverSocket);
        lift (sys_close fd) ;;
        mret false
      else
        lift (modify_self (set_running true)) ;;
        mret true.

Definition handleClient (clientSocket : Z) (clientAddr : sockaddr_in) : MX unit :=
  let clientIp := sin_addr clientAddr in
  let clientPort := ntohs (sin_port clientAddr) in
  print (MsgClientConnected clientIp clientPort) ;;
  lift (sys_send clientSocket response (strlen response)) ;;
  lift (sys_close clientSocket) ;;
  print MsgClientDisconnected.

Definition stop : MX unit :=
  lift (modify_self (set_running false)) ;;
  fd ← lift (gets m_serverSocket);
  if 0 <=? fd then
    lift (sys_close fd) ;;
    lift (modify_self (set_serverSocket (-1))) ;;
    print MsgStopped
  else mret tt.

(** The other thread's [stop()] runs as that thread's function: an
    exception it lets out ends the process. *)
Fixpoint run_loop (script : list arrival) : MX unit :=
  running ← lift (gets m_running);
  if (running : bool) then
    match script with
    | [] => lift pending
    | a :: rest =>
        fd ← lift (gets m_serverSocket);
        (if stop_called a then noexcept stop else mret tt) ;;
        clientSocket ← lift (sys_accept fd a);
        if clientSocket <? 0 then
          still ← lift (gets m_running);
          (if (still : bool) then lift (perror "accept failed") else mret tt) ;;
          run_loop rest
        else
          handleClient clientSocket (accept_peer a) ;;
          run_loop rest
    end
  else mret tt.

Definition run (script : list arrival) : MX unit :=
  ap ← lift (gets m_actualPort);
  print (MsgRunning ap) ;;
  run_loop script.

(** [Server::~Server()]: a destructor is [noexcept]. *)
Definition Server_dtor : MX unit := noexcept stop.
End Methods.
End Throwing.

(** ** The program: main.cpp *)

Definition EXIT_SUCCESS : Z := 0.
Definition EXIT_FAILURE : Z := 1.

Definition LF : string := String "010" EmptyString.

(** [main] has returned with an exit code, is still inside [run], or the
    process was ended by [std::terminate]. *)
Inductive main_result : Type :=
  | Exited (code : Z) (out : list main_output) (w : World)
  | Serving (out : list main_output) (st : State)
  | Terminated (out : list main_output) (w : World).

(** A [std::print] of [main] itself: the exception it throws, or the
    output with the new line added. *)
Definition main_print (io : Stdio) (w : World) (out : list main_output) (line : main_output)
    : string + list main_output :=
  match main_print_error io w line with
  | Some what => inl what
  | None => inr (out ++ [line])
  end.

(** Leaving the [try] block with a value to return: [server] is destroyed
    first. *)
Definition leave (io : Stdio) (code : Z) (out : list main_output) (server : State)
    : main_result :=
  match Throwing.Server_dtor io server with
  | XReturns _ st => Exited code out (world st)
  | XPending st => Serving out st
  | XThrows _ st => Terminated out (world st)
  | XTerminates st => Terminated out (world st)
  end.

(** An exception leaves the [try] block: [server] is destroyed while the
    stack is unwound, then the handler of [catch (const std::exception&)]
    reports [what()] and returns [EXIT_FAILURE].  An exception thrown by
    the handler's own [std::print] leaves [main]. *)
Definition handle_exception (io : Stdio) (what : string) (out : list main_output)
    (server : State) : main_result :=
  match Throwing.Server_dtor io server with
  | XReturns _ st =>
      match main_print io (world st) out
              (ToStderr (String.append "Server error: " (String.append what LF))) with
      | inl _ => Terminated out (world st)
      | inr out' => Exited EXIT_FAILURE out' (world st)
      end
  | XPending st => Serving out st
  | XThrows _ st => Terminated out (world st)
  | XTerminates st => Terminated out (world st)
  end.

(** [int main()].  [Server server(8080)] takes the default backlog 10; the
    object lives in the [try] block, so its destructor runs on every way
    out of it. *)
Definition main (E : Env) (io : Stdio) (script : list arrival) (w : World) : main_result :=
  match Server_ctor E 8080 10 w with
  | Pending st => Serving [] st
  | Returns _ server =>
      match Throwing.start E io server with
      | XPending st => Serving [] st
      | XTerminates st => Terminated [] (world st)
      | XThrows what st => handle_exception io what [] st
      | XReturns false server1 =>
          match main_print io (world server1) []
                  (ToStderr (String.append "Failed to start server" LF)) with
          | inl what => handle_exception io what [] server1
          | inr out => leave io EXIT_FAILURE out server1
          end
      | XReturns true server1 =>
          match main_print io (world server1) []
                  (ToStdout (String.append "Server started successfully" LF)) with
          | inl what => handle_exception io what [] server1
          | inr out1 =>
              match main_print io (world server1) out1
                      (ToStdout (String.append "Press Ctrl+C to stop" (String.append LF LF))) with
              | inl what => handle_exception io what out1 server1
              | inr out2 =>
                  match Throwing.run io script server1 with
                  | XPending st => Serving out2 st
                  | XTerminates st => Terminated out2 (world st)
                  | XThrows what st => handle_exception io what out2 st
                  | XReturns _ server2 => leave io EXIT_SUCCESS out2 server2
                  end
              end
          end
      end
  end.


(** The world [main] has reached. *)
Definition main_world (r : main_result) : World :=
  match r with
  | Exited _ _ w => w
  | Serving _ st => world st
  | Terminated _ w => w
  end.

(** What [main] has written when it returns: after [EXIT_SUCCESS] its two
    lines on standard output, after [EXIT_FAILURE] a line on standard
    error last. *)
Definition last_words (code : Z) (out : list main_output) : Prop :=
  (code = EXIT_SUCCESS /\
   out = [ToStdout (String.append "Server started successfully" LF);
          ToStdout (String.append "Press Ctrl+C to stop" (String.append LF LF))]) \/
  (code = EXIT_FAILURE /\ exists before line, out = before ++ [ToStderr line]).


(** Ways for writes to fail. *)
Module Faults.
(** Standard output is closed: every write to it fails, standard error
    works. *)
Definition deaf_stdout : Stdio :=
  mk_Stdio (fun _ _ => Some "write error"%string)
           (fun _ line => match line with
                          | ToStdout _ => Some "write error"%string
                          | ToStderr _ => None
                          end).

(** Only the line that greets a client cannot be written. *)
Definition greeting_lost : Stdio :=
  mk_Stdio (fun _ msg => match msg with
                         | MsgClientConnected _ _ => Some "write error"%string
                         | _ => None
                         end)
           (fun _ _ => None).
End Faults.

(** The descriptor [fd] is not a socket of the server any more: it is
    closed, or [accept] has handed its number out again for a
    connection. *)
Definition released (fd : Z) (w : World) : Prop :=
  match fds w !! fd with
  | None => True
  | Some (Connected _ _) => True
  | Some _ => False
  end.

(** ** A restart

    A server that had to move to port 8087 is stopped and started again
    once port 8080 has become free. *)
Module Restart.
Definition moved : State :=
  final (start Scenario.neighbour (fresh Scenario.neighbour 8080 10 Scenario.boot)).

(** Everything succeeds, and [socket] returns descriptor 5. *)
Definition next_socket : Env :=
  mk_Env 1000 (fun _ n => N.of_nat n) 5 true (fun _ => false) true.
End Restart.

(** ** Counting calls

    The kinds of entries a trace can hold, and a budget of calls per kind
    that a computation stays within while it only adds to the trace. *)
Inductive call : Type :=
  | CSrand | CRand | CSocket | CSetsockopt | CBind | CListen
  | CAccept | CSend | CClose | CPerror | CPrint.

Definition call_of (e : event) : call :=
  match e with
  | EvSrand _ => CSrand
  | EvRand _ => CRand
  | EvSocket _ => CSocket
  | EvSetsockopt _ _ => CSetsockopt
  | EvBind _ _ _ => CBind
  | EvListen _ _ _ => CListen
  | EvAccept _ _ => CAccept
  | EvSend _ _ => CSend
  | EvClose _ _ => CClose
  | EvPerror _ => CPerror
  | EvPrint _ => CPrint
  end.

Definition call_eqb (a b : call) : bool :=
  match a, b with
  | CSrand, CSrand | CRand, CRand | CSocket, CSocket | CSetsockopt, CSetsockopt
  | CBind, CBind | CListen, CListen | CAccept, CAccept | CSend, CSend
  | CClose, CClose | CPerror, CPerror | CPrint, CPrint => true
  | _, _ => false
  end.

(** Number of entries of kind [k] in [l]. *)
Definition calls (k : call) (l : list event) : nat :=
  length (List.filter (fun e => call_eqb (call_of e) k) l).

(** The budgets of one call of kind [c], and of no call at all. *)
Definition one (c k : call) : nat := if call_eqb c k then 1%nat else 0%nat.
Definition none (k : call) : nat := 0%nat.

(** [m] only appends to the trace, and what it appends holds at most
    [b k] entries of each kind [k]; this whether [m] returns or not. *)
Definition within {A : Type} (b : call -> nat) (m : M A) : Prop :=
  forall st, exists l,
    trace (world (final (m st))) = trace (world st) ++ l /\
    forall k, (calls k l <= b k)%nat.

(** What the bind loop may still do once it has retried [attempts] times. *)
Definition loop_budget (attempts : Z) (k : call) : nat :=
  match k with
  | CBind => S (Z.to_nat (10 - attempts))
  | CRand => Z.to_nat (10 - attempts)
  | CPerror => 1%nat
  | _ => 0%nat
  end.

(** [within] for the throwing methods: however [m] ends, it has only
    added to the trace, and at most [b k] entries of each kind [k]. *)
Definition xwithin {A : Type} (b : call -> nat) (m : MX A) : Prop :=
  forall st, exists l,
    trace (world (xfinal (m st))) = trace (world st) ++ l /\
    forall k, (calls k l <= b k)%nat.

(** Whether or not [m] returns, [P] still holds if it held before. *)
Definition preserves {A : Type} (P : State -> Prop) (m : M A) : Prop :=
  forall st, P st -> P (final (m st)).

(** However [m] ends, [P] still holds if it held before. *)
Definition xpreserves {A : Type} (P : State -> Prop) (m : MX A) : Prop :=
  forall st, P st -> P (xfinal (m st)).

(** The server holds descriptor [fd], or holds none and [fd] is
    released. *)
Definition holds_or_released (fd : Z) (st : State) : Prop :=
  m_serverSocket (self st) = fd \/
  (m_serverSocket (self st) < 0 /\ released fd (world st)).

(** Where a throwing method returns or stays pending, the plain method
    does the same with the same state; with [strict] set, the throwing
    method does nothing else. *)
Definition sim {A : Type} (strict : bool) (mx : MX A) (m : M A) : Prop :=
  forall st,
    match mx st with
    | XReturns a st' => m st = Returns a st'
    | XPending st' => m st = Pending st'
    | XThrows _ _ => strict = false
    | XTerminates _ => strict = false
    end.

(** * Properties *)

(** ** Laws of the monad used below *)

Lemma bind_returns {A B : Type} (m : M A) (f : A -> M B) (st st' : State) (a : A) :
  m st = Returns a st' -> (m ≫= f) st = f a st'.
Proof. intros H. unfold mbind, M_bind. now rewrite H. Qed.

Lemma bind_pending {A B : Type} (m : M A) (f : A -> M B) (st st' : State) :
  m st = Pending st' -> (m ≫= f) st = Pending st'.
Proof. intros H. unfold mbind, M_bind. now rewrite H. Qed.

Lemma state_eta (st : State) : mk_State (self st) (world st) = st.
Proof. now destruct st. Qed.

(** ** Frame: [m_port] and [m_backlog] *)

Lemma same_config_refl st : same_config st st.
Proof. now split. Qed.

Lemma same_config_trans st1 st2 st3 :
  same_config st1 st2 -> same_config st2 st3 -> same_config st1 st3.
Proof. unfold same_config. intros [? ?] [? ?]. split; congruence. Qed.

Section Frame.
Context {A B : Type}.

Lemma keeps_ret (a : A) : keeps_config (mret a).
Proof. intros st. apply same_config_refl. Qed.

Lemma keeps_pending : keeps_config (@pending A).
Proof. intros st. apply same_config_refl. Qed.

Lemma keeps_bind (m : M A) (f : A -> M B) :
  keeps_config m -> (forall a, keeps_config (f a)) -> keeps_config (m ≫= f).
Proof.
  intros Hm Hf st. specialize (Hm st). unfold mbind, M_bind.
  destruct (m st) as [a st1 | st1]; simpl in *.
  - eapply same_config_trans; [exact Hm | apply Hf].
  - exact Hm.
Qed.

Lemma keeps_gets (f : Server -> A) : keeps_config (gets f).
Proof. intros st. apply same_config_refl. Qed.

Lemma keeps_getw (f : World -> A) : keeps_config (getw f).
Proof. intros st. apply same_config_refl. Qed.
End Frame.

Lemma keeps_modify_world f : keeps_config (modify_world f).
Proof. intros st. now split. Qed.

Lemma keeps_modify_self f :
  (forall s, m_port (f s) = m_port s /\ m_backlog (f s) = m_backlog s) ->
  keeps_config (modify_self f).
Proof. intros H st. apply H. Qed.

Lemma keeps_log e : keeps_config (log e).
Proof. apply keeps_modify_world. Qed.

(** Walks through a computation written with bind, [if] and [match]. *)
Ltac frame_step :=
  match goal with
  | |- keeps_config (_ ≫= _) => apply keeps_bind; [| intros ?]
  | |- keeps_config (mret _) => apply keeps_ret
  | |- keeps_config pending => apply keeps_pending
  | |- keeps_config (gets _) => apply keeps_gets
  | |- keeps_config (getw _) => apply keeps_getw
  | |- keeps_config (modify_world _) => apply keeps_modify_world
  | |- keeps_config (modify_self _) => apply keeps_modify_self; intros ?; now split
  | |- keeps_config (log _) => apply keeps_log
  | |- keeps_config (perror _) => apply keeps_log
  | |- keeps_config (print _) => apply keeps_log
  | |- keeps_config (if ?c then _ else _) => destruct c
  | |- keeps_config (match ?x with _ => _ end) => destruct x
  | |- keeps_config (let _ := _ in _) => cbv zeta
  end.

Ltac frame := repeat frame_step.

Section FrameOfCalls.
Variable E : Env.

Lemma keeps_sys_srand seed : keeps_config (sys_srand seed).
Proof. unfold sys_srand. frame. Qed.

Lemma keeps_sys_rand : keeps_config (sys_rand E).
Proof. unfold sys_rand. frame. Qed.

Lemma keeps_sys_socket : keeps_config (sys_socket E).
Proof. unfold sys_socket. frame. Qed.

Lemma keeps_sys_setsockopt fd : keeps_config (sys_setsockopt E fd).
Proof. unfold sys_setsockopt. frame. Qed.

Lemma keeps_sys_bind fd addr : keeps_config (sys_bind E fd addr).
Proof. unfold sys_bind. frame. Qed.

Lemma keeps_sys_listen fd backlog : keeps_config (sys_listen E fd backlog).
Proof. unfold sys_listen. frame. Qed.

Lemma keeps_sys_accept fd a : keeps_config (sys_accept fd a).
Proof. unfold sys_accept. frame. Qed.

Lemma keeps_sys_send fd buf len : keeps_config (sys_send fd buf len).
Proof. unfold sys_send. frame. Qed.

Lemma keeps_sys_close fd : keeps_config (sys_close fd).
Proof. unfold sys_close. frame. Qed.

Hint Resolve keeps_sys_srand keeps_sys_rand keeps_sys_socket keeps_sys_setsockopt
  keeps_sys_bind keeps_sys_listen keeps_sys_accept keeps_sys_send keeps_sys_close : core.

Lemma keeps_createSocket : keeps_config (createSocket E).
Proof. unfold createSocket. frame; auto. Qed.

Lemma keeps_bind_loop fuel : forall attempts, keeps_config (bind_loop E fuel attempts).
Proof.
  induction fuel as [| fuel IH]; intros attempts; simpl.
  - apply keeps_pending.
  - frame; auto.
Qed.

Lemma keeps_bindSocket : keeps_config (bindSocket E).
Proof. unfold bindSocket. frame; auto using keeps_bind_loop. Qed.

Lemma keeps_listenSocket : keeps_config (listenSocket E).
Proof. unfold listenSocket. frame; auto. Qed.

Lemma keeps_start : keeps_config (start E).
Proof.
  unfold start. frame; auto using keeps_createSocket, keeps_bindSocket, keeps_listenSocket.
Qed.

Lemma keeps_handleClient fd addr : keeps_config (handleClient fd addr).
Proof. unfold handleClient. frame; auto. Qed.

Lemma keeps_stop : keeps_config stop.
Proof. unfold stop. frame; auto. Qed.

Lemma keeps_run_loop script : keeps_config (run_loop script).
Proof.
  induction script as [| a rest IH]; simpl.
  - frame.
  - frame; auto using keeps_stop, keeps_handleClient.
Qed.

Lemma keeps_run script : keeps_config (run script).
Proof. unfold run. frame. apply keeps_run_loop. Qed.
End FrameOfCalls.

(** ** System calls as state transformers *)

Lemma sys_close_spec fd st :
  sys_close fd st = Returns (close_ret fd (world st)) (mk_State (self st) (close_world fd (world st))).
Proof.
  unfold sys_close, close_ret, close_world, getw, mbind, M_bind.
  destruct (fds (world st) !! fd); reflexivity.
Qed.

Lemma close_world_fds fd w : fds (close_world fd w) = delete fd (fds w).
Proof.
  unfold close_world. destruct (fds w !! fd) eqn:H; simpl; [reflexivity |].
  symmetry. now apply delete_id.
Qed.

Lemma close_world_trace fd w :
  trace (close_world fd w) = trace w ++ [EvClose fd (close_ret fd w)].
Proof. unfold close_world, close_ret. now destruct (fds w !! fd). Qed.


Lemma send_whole_response : substring 0 (strlen response) response = response.
Proof. vm_compute. reflexivity. Qed.

(** ** Construction *)

(** C9: a server constructed with port [p] and backlog [b], before any call
    of [start], reports [p] from [getPort], holds the invalid descriptor -1
    and is not running. *)
Theorem fresh_server_state (E : Env) (p b : Z) (w : World) :
  returned (Server_ctor E p b w) = Some tt /\
  getPort (self (fresh E p b w)) = p /\
  m_serverSocket (self (fresh E p b w)) < 0 /\
  m_running (self (fresh E p b w)) = false.
Proof. repeat split. Qed.

(** ** [stop] *)

Lemma stop_spec st :
  stop st =
    Returns tt
      (if 0 <=? m_serverSocket (self st)
       then mk_State (set_serverSocket (-1) (set_running false (self st)))
                     (emit (EvPrint MsgStopped) (close_world (m_serverSocket (self st)) (world st)))
       else mk_State (set_running false (self st)) (world st)).
Proof.
  unfold stop, mbind, M_bind, modify_self, gets. simpl.
  destruct (0 <=? m_serverSocket (self st)); [| reflexivity].
  now rewrite sys_close_spec.
Qed.

Lemma stop_not_running st : m_running (self (final (stop st))) = false.
Proof. rewrite stop_spec. simpl. now destruct (0 <=? m_serverSocket (self st)). Qed.

Lemma stop_reports_nothing st :
  List.filter is_perror (trace (world (final (stop st)))) =
  List.filter is_perror (trace (world st)).
Proof.
  rewrite stop_spec. simpl.
  destruct (0 <=? m_serverSocket (self st)); simpl; [| reflexivity].
  rewrite close_world_trace, !List.filter_app. simpl. now rewrite !app_nil_r.
Qed.


(** ** The accept loop *)

Lemma sys_accept_fail fd a st :
  accept_ret a < 0 ->
  sys_accept fd a st =
    Returns (accept_ret a) (mk_State (self st) (emit (EvAccept fd (accept_ret a)) (world st))).
Proof.
  intros H. unfold sys_accept, mbind, M_bind.
  destruct (Z.leb_spec 0 (accept_ret a)); [lia | reflexivity].
Qed.

Lemma run_loop_not_running script st :
  m_running (self st) = false -> run_loop script st = Returns tt st.
Proof.
  intros H. destruct script; simpl; unfold mbind, M_bind, gets; now rewrite H.
Qed.

Lemma run_loop_blocked st :
  m_running (self st) = true -> run_loop [] st = Pending st.
Proof. intros H. simpl. unfold mbind, M_bind, gets. now rewrite H. Qed.

(** One iteration in which no other thread interferes and [accept] fails. *)
Lemma run_loop_accept_failed a rest st :
  m_running (self st) = true -> stop_called a = false -> accept_ret a < 0 ->
  run_loop (a :: rest) st =
    run_loop rest
      (mk_State (self st) (emit_all (failed_accept (m_serverSocket (self st)) a) (world st))).
Proof.
  intros Hrun Hstop Hret. simpl.
  unfold mbind at 1, M_bind at 1, gets at 1. rewrite Hrun.
  unfold mbind at 1, M_bind at 1, gets at 1.
  unfold mbind at 1, M_bind at 1. rewrite Hstop. cbn [mret M_ret].
  unfold mbind at 1, M_bind at 1. rewrite sys_accept_fail by assumption.
  destruct (Z.ltb_spec (accept_ret a) 0) as [_ | ?]; [| lia].
  unfold mbind, M_bind, gets, perror, log, modify_world. simpl. rewrite Hrun.
  unfold emit_all, emit, failed_accept. simpl. now rewrite <- app_assoc.
Qed.

Lemma emit_all_nil w : emit_all [] w = w.
Proof. destruct w. unfold emit_all. simpl. now rewrite app_nil_r. Qed.

Lemma emit_all_app es1 es2 w : emit_all es2 (emit_all es1 w) = emit_all (es1 ++ es2) w.
Proof. unfold emit_all. simpl. now rewrite app_assoc. Qed.

(** One iteration in which another thread stops the server while this one
    waits in [accept], and [accept] fails. *)
Lemma run_loop_accept_stopped a rest st :
  m_running (self st) = true -> stop_called a = true -> accept_ret a < 0 ->
  run_loop (a :: rest) st =
    Returns tt
      (mk_State (self (final (stop st)))
         (emit (EvAccept (m_serverSocket (self st)) (accept_ret a)) (world (final (stop st))))).
Proof.
  intros Hrun Hstop Hret. simpl.
  unfold mbind at 1, M_bind at 1, gets at 1. rewrite Hrun.
  unfold mbind at 1, M_bind at 1, gets at 1.
  unfold mbind at 1, M_bind at 1. rewrite Hstop.
  pose proof (stop_not_running st) as Hoff.
  destruct (stop st) as [[] st1 | st1] eqn:Hst; [| now rewrite stop_spec in Hst].
  simpl in Hoff |- *.
  unfold mbind at 1, M_bind at 1. rewrite sys_accept_fail by assumption.
  destruct (Z.ltb_spec (accept_ret a) 0) as [_ | ?]; [| lia].
  unfold mbind at 1, M_bind at 1, gets at 1. simpl. rewrite Hoff.
  unfold mbind at 1, M_bind at 1. cbn [mret M_ret].
  now apply run_loop_not_running.
Qed.

Lemma run_loop_keeps_retrying script : forall st,
  m_running (self st) = true ->
  Forall (fun a => stop_called a = false /\ accept_ret a < 0) script ->
  run_loop script st =
    Pending (mk_State (self st)
               (emit_all (flat_map (failed_accept (m_serverSocket (self st))) script) (world st))).
Proof.
  induction script as [| a rest IH]; intros st Hrun Hall.
  - rewrite run_loop_blocked by assumption. simpl. now rewrite emit_all_nil, state_eta.
  - inversion Hall as [| ? ? [Hstop Hret] Hrest]; subst.
    rewrite run_loop_accept_failed by assumption.
    rewrite IH by assumption. simpl. now rewrite emit_all_app.
Qed.

(** C7: in the accept loop a failure of [accept] while the server is
    running is reported with [perror] and the loop goes on to the next
    [accept], any number of times; a failure of [accept] after another
    thread has stopped the server is not reported and ends the loop. *)
Theorem accept_failure_policy (st : State) (a : arrival) (rest : list arrival) :
  m_running (self st) = true ->
  accept_ret a < 0 ->
  (stop_called a = false ->
     run_loop (a :: rest) st =
       run_loop rest
         (mk_State (self st)
            (emit_all [EvAccept (m_serverSocket (self st)) (accept_ret a);
                       EvPerror "accept failed"] (world st)))) /\
  (stop_called a = true ->
     run_loop (a :: rest) st =
       Returns tt
         (mk_State (self (final (stop st)))
            (emit (EvAccept (m_serverSocket (self st)) (accept_ret a))
               (world (final (stop st))))) /\
     List.filter is_perror (trace (world (final (run_loop (a :: rest) st)))) =
       List.filter is_perror (trace (world st))) /\
  (forall script,
     Forall (fun a => stop_called a = false /\ accept_ret a < 0) script ->
     run_loop script st =
       Pending (mk_State (self st)
                  (emit_all (flat_map (fun a => [EvAccept (m_serverSocket (self st)) (accept_ret a);
                                                  EvPerror "accept failed"]) script)
                     (world st)))).
Proof.
  intros Hrun Hret. split; [| split].
  - intros Hstop. now apply run_loop_accept_failed.
  - intros Hstop. rewrite run_loop_accept_stopped by assumption. split; [reflexivity |].
    simpl. rewrite List.filter_app. simpl. rewrite app_nil_r.
    apply stop_reports_nothing.
  - intros script Hall. now apply run_loop_keeps_retrying.
Qed.


(** ** The connection handler *)

Lemma handleClient_spec clientSocket clientAddr st :
  handleClient clientSocket clientAddr st =
    Returns tt
      (mk_State (self st)
         (emit (EvPrint MsgClientDisconnected)
            (close_world clientSocket
               (emit_all [EvPrint (MsgClientConnected (sin_addr clientAddr)
                                     (ntohs (sin_port clientAddr)));
                          EvSend clientSocket response] (world st))))).
Proof.
  unfold handleClient, sys_send. rewrite send_whole_response.
  unfold mbind at 1, M_bind at 1, print at 1, log at 1, modify_world at 1.
  unfold mbind at 1, M_bind at 1, log at 1, modify_world at 1.
  unfold mbind at 1, M_bind at 1. rewrite sys_close_spec.
  unfold print, log, modify_world, emit_all, emit. simpl.
  now rewrite <- app_assoc.
Qed.

Lemma sys_accept_ok fd a st :
  0 <= accept_ret a ->
  sys_accept fd a st =
    Returns (accept_ret a)
      (mk_State (self st)
         (emit (EvAccept fd (accept_ret a))
            (set_fds (<[accept_ret a := Connected (accept_peer a) (accept_input a)]>
                        (fds (world st))) (world st)))).
Proof.
  intros H. unfold sys_accept, mbind, M_bind.
  destruct (Z.leb_spec 0 (accept_ret a)); [reflexivity | lia].
Qed.

(** Accepting a connection and handling it, as one step. *)
Lemma accept_and_handle fd a st :
  0 <= accept_ret a ->
  (c ← sys_accept fd a; handleClient c (accept_peer a)) st =
    Returns tt (mk_State (self st) (served fd a (world st))).
Proof.
  intros H. unfold mbind, M_bind. rewrite sys_accept_ok by assumption.
  rewrite handleClient_spec. f_equal. f_equal.
  unfold close_world, served, served_trace, emit_all, emit, set_fds. simpl.
  rewrite lookup_insert_eq. simpl.
  rewrite delete_insert_eq. now rewrite <- !app_assoc.
Qed.

(** One iteration of the loop in which [accept] succeeds. *)
Lemma run_loop_served a rest st :
  m_running (self st) = true -> 0 <= accept_ret a ->
  run_loop (a :: rest) st =
    run_loop rest
      (mk_State (self (if stop_called a then final (stop st) else st))
         (served (m_serverSocket (self st)) a
            (world (if stop_called a then final (stop st) else st)))).
Proof.
  intros Hrun Hret. simpl.
  unfold mbind at 1, M_bind at 1, gets at 1. rewrite Hrun.
  unfold mbind at 1, M_bind at 1, gets at 1.
  unfold mbind at 1, M_bind at 1.
  assert (Hpre : (if stop_called a then stop else mret tt) st =
                 Returns tt (if stop_called a then final (stop st) else st)).
  { destruct (stop_called a); [now rewrite stop_spec | reflexivity]. }
  rewrite Hpre.
  pose proof (accept_and_handle (m_serverSocket (self st)) a
                (if stop_called a then final (stop st) else st) Hret) as Hserve.
  unfold mbind, M_bind in Hserve |- *.
  destruct (sys_accept (m_serverSocket (self st)) a
              (if stop_called a then final (stop st) else st)) as [c st1 | st1] eqn:Hacc;
    [| discriminate].
  rewrite sys_accept_ok in Hacc by assumption. injection Hacc as <- <-.
  destruct (Z.ltb_spec (accept_ret a) 0) as [? | _]; [lia |].
  now rewrite Hserve.
Qed.


(** ** Binding *)

Lemma ntohs_htons x : ntohs (htons x) = htons x.
Proof. unfold ntohs, htons. now rewrite Z.mod_mod. Qed.


Lemma rand_rem_range (v : N) : 0 <= Z.rem (Z.of_N v) 10 <= 9.
Proof.
  assert (0 <= Z.of_N v) by lia.
  pose proof (Z.rem_bound_pos (Z.of_N v) 10). pose proof (Z.rem_nonneg (Z.of_N v) 10). lia.
Qed.

Lemma candidates_range E P seed k : forall n,
  Forall (fun c => P <= c <= P + 9) (candidates E P seed n k).
Proof.
  induction k as [| k IH]; intros n; simpl; constructor; [| apply IH].
  pose proof (rand_rem_range (env_rand E seed n)). lia.
Qed.

Lemma unchanged_refl st : unchanged st st.
Proof. now repeat split. Qed.

Lemma unchanged_trans st1 st2 st3 : unchanged st1 st2 -> unchanged st2 st3 -> unchanged st1 st3.
Proof. unfold unchanged. intros (? & ? & ? & ?) (? & ? & ? & ?). repeat split; congruence. Qed.

Section BindCalls.
Variable E : Env.

Lemma sys_bind_busy fd addr st :
  fds (world st) !! fd = Some Unbound ->
  env_busy E (ntohs (sin_port addr)) = true ->
  sys_bind E fd addr st =
    Returns (-1) (mk_State (self st) (emit (EvBind fd (ntohs (sin_port addr)) (-1)) (world st))).
Proof.
  intros Hfd Hbusy. unfold sys_bind, mbind, M_bind, getw. now rewrite Hfd, Hbusy.
Qed.

Lemma sys_bind_free fd addr st :
  fds (world st) !! fd = Some Unbound ->
  env_busy E (ntohs (sin_port addr)) = false ->
  sys_bind E fd addr st =
    Returns 0
      (mk_State (self st)
         (emit (EvBind fd (ntohs (sin_port addr)) 0)
            (set_fds (<[fd := Bound (ntohs (sin_port addr))]> (fds (world st))) (world st)))).
Proof.
  intros Hfd Hfree. unfold sys_bind, mbind, M_bind, getw. now rewrite Hfd, Hfree.
Qed.

(** The loop condition is false at once: [bind] succeeds. *)
Lemma bind_loop_success fuel attempts st :
  fds (world st) !! m_serverSocket (self st) = Some Unbound ->
  env_busy E (ntohs (sin_port (m_serverAddress (self st)))) = false ->
  bind_loop E (S fuel) attempts st =
    Returns true
      (mk_State (self st)
         (emit (EvBind (m_serverSocket (self st))
                  (ntohs (sin_port (m_serverAddress (self st)))) 0)
            (set_fds (<[m_serverSocket (self st) :=
                          Bound (ntohs (sin_port (m_serverAddress (self st))))]>
                        (fds (world st))) (world st)))).
Proof.
  intros Hfd Hfree. simpl.
  unfold mbind at 1, M_bind at 1, gets at 1.
  unfold mbind at 1, M_bind at 1, gets at 1.
  unfold mbind at 1, M_bind at 1. simpl.
  now rewrite sys_bind_free.
Qed.

(** [bind] fails and the budget of retries is used up. *)
Lemma bind_loop_give_up fuel attempts st :
  fds (world st) !! m_serverSocket (self st) = Some Unbound ->
  env_busy E (ntohs (sin_port (m_serverAddress (self st)))) = true ->
  10 <= attempts ->
  bind_loop E (S fuel) attempts st =
    Returns false
      (mk_State (self st)
         (emit_all [EvBind (m_serverSocket (self st))
                      (ntohs (sin_port (m_serverAddress (self st)))) (-1);
                    EvPerror "bind failed after 10 attempts"] (world st))).
Proof.
  intros Hfd Hbusy Hatt. simpl.
  unfold mbind at 1, M_bind at 1, gets at 1.
  unfold mbind at 1, M_bind at 1, gets at 1.
  unfold mbind at 1, M_bind at 1. simpl.
  rewrite sys_bind_busy by assumption. simpl.
  destruct (Z.leb_spec 10 attempts); [| lia].
  unfold mbind, M_bind, perror, log, modify_world, emit_all, emit. simpl.
  now rewrite <- app_assoc.
Qed.

(** [bind] fails and a new candidate is drawn. *)
Lemma bind_loop_retry fuel attempts st :
  fds (world st) !! m_serverSocket (self st) = Some Unbound ->
  env_busy E (ntohs (sin_port (m_serverAddress (self st)))) = true ->
  attempts < 10 ->
  let v := Z.of_N (env_rand E (rng_seed (world st)) (rng_calls (world st))) in
  let c := m_port (self st) + Z.rem v 10 in
  bind_loop E (S fuel) attempts st =
    bind_loop E fuel (attempts + 1)
      (mk_State
         (set_serverAddress (set_sin_port (htons c) (m_serverAddress (self st)))
            (set_actualPort c (self st)))
         (mk_World (fds (world st)) (rng_seed (world st)) (S (rng_calls (world st)))
            (trace (world st) ++
               [EvBind (m_serverSocket (self st))
                  (ntohs (sin_port (m_serverAddress (self st)))) (-1);
                EvRand v]))).
Proof.
  intros Hfd Hbusy Hatt v c. simpl.
  unfold mbind at 1, M_bind at 1, gets at 1.
  unfold mbind at 1, M_bind at 1, gets at 1.
  unfold mbind at 1, M_bind at 1. simpl.
  rewrite sys_bind_busy by assumption. simpl.
  destruct (Z.leb_spec 10 attempts); [lia |].
  unfold mbind, M_bind, sys_rand, gets, getw, log, modify_world, modify_self, emit, set_rng.
  simpl. now rewrite <- app_assoc.
Qed.
End BindCalls.

Section BindLoop.
Variable E : Env.

(** The loop entered with a busy port in the address and [k] retries
    left: it stops at the first free candidate, or gives up after [k]
    further failures. *)
Lemma bind_loop_retries k : forall attempts st,
  attempts = 10 - Z.of_nat k ->
  fds (world st) !! m_serverSocket (self st) = Some Unbound ->
  env_busy E (ntohs (sin_port (m_serverAddress (self st)))) = true ->
  exists st',
    match List.find (port_free E)
            (candidates E (m_port (self st)) (rng_seed (world st)) (rng_calls (world st)) k)
    with
    | Some c =>
        bind_loop E (S k) attempts st = Returns true st' /\
        m_actualPort (self st') = c /\
        fds (world st') = <[m_serverSocket (self st) := Bound (htons c)]> (fds (world st))
    | None =>
        bind_loop E (S k) attempts st = Returns false st' /\
        fds (world st') = fds (world st) /\
        trace (world st') =
          trace (world st) ++
            EvBind (m_serverSocket (self st))
              (ntohs (sin_port (m_serverAddress (self st)))) (-1) ::
            retry_trace E (m_serverSocket (self st)) (m_port (self st))
              (rng_seed (world st)) (rng_calls (world st)) k ++
            [EvPerror "bind failed after 10 attempts"]
    end /\
    unchanged st st'.
Proof.
  induction k as [| k IH]; intros attempts st Hatt Hfd Hbusy.
  - eexists. cbn [candidates List.find retry_trace]. split; [split; [| split] |].
    + apply bind_loop_give_up; [assumption | assumption | lia].
    + reflexivity.
    + reflexivity.
    + now repeat split.
  - assert (Hlt : attempts < 10) by lia.
    pose proof (bind_loop_retry E (S k) attempts st Hfd Hbusy Hlt) as Hstep.
    cbv zeta in Hstep. rewrite Hstep. clear Hstep.
    cbn [candidates List.find retry_trace].
    set (v := Z.of_N (env_rand E (rng_seed (world st)) (rng_calls (world st)))).
    set (c := m_port (self st) + Z.rem v 10).
    destruct (port_free E c) eqn:Hfree.
    + eexists. split; [split; [| split] |].
      * apply bind_loop_success; simpl; [assumption |].
        rewrite ntohs_htons. unfold port_free in Hfree.
        now destruct (env_busy E (htons c)).
      * reflexivity.
      * simpl. now rewrite ntohs_htons.
      * now repeat split.
    + match goal with
      | |- context [bind_loop E (S k) (attempts + 1) ?s] => set (st2 := s)
      end.
      destruct (IH (attempts + 1) st2) as (st' & Hres & Hsame).
      * lia.
      * exact Hfd.
      * simpl. rewrite ntohs_htons. unfold port_free in Hfree.
        now destruct (env_busy E (htons c)).
      * exists st'. split; [| exact Hsame].
        simpl in Hres.
        destruct (List.find (port_free E)
                    (candidates E (m_port (self st)) (rng_seed (world st))
                       (S (rng_calls (world st))) k)) as [c' |].
        -- exact Hres.
        -- destruct Hres as (Hret & Hfds & Htrace).
           split; [exact Hret | split; [exact Hfds |]].
           rewrite Htrace, ntohs_htons, <- app_assoc. reflexivity.
Qed.
End BindLoop.

(** ** The steps of [start] *)

Section StartSteps.
Variable E : Env.

Lemma createSocket_ok st :
  0 <= env_socket E -> env_setsockopt_ok E = true ->
  createSocket E st =
    Returns true
      (mk_State (set_serverSocket (env_socket E) (self st))
         (emit_all [EvSocket (env_socket E); EvSetsockopt (env_socket E) 0]
            (set_fds (<[env_socket E := Unbound]> (fds (world st))) (world st)))).
Proof.
  intros Hfd Hopt.
  unfold createSocket, sys_socket, sys_setsockopt, mbind, M_bind, gets, getw, log,
    modify_world, modify_self.
  destruct (Z.leb_spec 0 (env_socket E)); [| lia]. simpl.
  destruct (Z.ltb_spec (env_socket E) 0); [lia |]. simpl.
  rewrite lookup_insert_eq, Hopt. simpl.
  unfold emit_all, emit. simpl. now rewrite <- app_assoc.
Qed.

Lemma createSocket_no_socket st :
  env_socket E < 0 ->
  createSocket E st =
    Returns false
      (mk_State (set_serverSocket (env_socket E) (self st))
         (emit_all [EvSocket (env_socket E); EvPerror "socket creation failed"] (world st))).
Proof.
  intros Hfd.
  unfold createSocket, sys_socket, mbind, M_bind, gets, perror, log, modify_world, modify_self.
  destruct (Z.leb_spec 0 (env_socket E)); [lia |]. simpl.
  destruct (Z.ltb_spec (env_socket E) 0); [| lia].
  unfold emit_all, emit. simpl. now rewrite <- app_assoc.
Qed.

(** [setsockopt] fails: [createSocket] returns with the new socket open. *)
Lemma createSocket_no_option st :
  0 <= env_socket E -> env_setsockopt_ok E = false ->
  createSocket E st =
    Returns false
      (mk_State (set_serverSocket (env_socket E) (self st))
         (emit_all [EvSocket (env_socket E); EvSetsockopt (env_socket E) (-1);
                    EvPerror "setsockopt failed"]
            (set_fds (<[env_socket E := Unbound]> (fds (world st))) (world st)))).
Proof.
  intros Hfd Hopt.
  unfold createSocket, sys_socket, sys_setsockopt, mbind, M_bind, gets, getw, perror, log,
    modify_world, modify_self.
  destruct (Z.leb_spec 0 (env_socket E)); [| lia]. simpl.
  destruct (Z.ltb_spec (env_socket E) 0); [lia |]. simpl.
  rewrite lookup_insert_eq, Hopt. simpl.
  unfold emit_all, emit. simpl. now rewrite <- !app_assoc.
Qed.

Lemma listenSocket_ok st port :
  fds (world st) !! m_serverSocket (self st) = Some (Bound port) ->
  env_listen_ok E = true ->
  listenSocket E st =
    Returns true
      (mk_State (self st)
         (emit_all [EvListen (m_serverSocket (self st)) (m_backlog (self st)) 0;
                    EvPrint (MsgListening (m_backlog (self st)))]
            (set_fds (<[m_serverSocket (self st) := Listening port (m_backlog (self st))]>
                        (fds (world st))) (world st)))).
Proof.
  intros Hfd Hok.
  unfold listenSocket, sys_listen, mbind, M_bind, gets, getw, print, log, modify_world.
  simpl. rewrite Hfd, Hok. simpl.
  unfold emit_all, emit. simpl. now rewrite <- app_assoc.
Qed.

(** The state in which [bindSocket] enters its loop. *)
Lemma bindSocket_enter st :
  bindSocket E st =
    (bound ← bind_loop E 11 0;
     if (bound : bool) then
       ap ← gets m_actualPort; print (MsgBound ap) ;; mret true
     else mret false)
      (mk_State
         (set_serverAddress (mk_sockaddr_in AF_INET INADDR_ANY (htons (m_port (self st))))
            (self st))
         (world st)).
Proof. reflexivity. Qed.

Lemma bindSocket_free st :
  fds (world st) !! m_serverSocket (self st) = Some Unbound ->
  env_busy E (htons (m_port (self st))) = false ->
  bindSocket E st =
    Returns true
      (mk_State
         (set_serverAddress (mk_sockaddr_in AF_INET INADDR_ANY (htons (m_port (self st))))
            (self st))
         (emit_all [EvBind (m_serverSocket (self st)) (htons (m_port (self st))) 0;
                    EvPrint (MsgBound (m_actualPort (self st)))]
            (set_fds (<[m_serverSocket (self st) := Bound (htons (m_port (self st)))]>
                        (fds (world st))) (world st)))).
Proof.
  intros Hfd Hfree. rewrite bindSocket_enter.
  erewrite bind_returns.
  2:{ apply bind_loop_success; simpl; [exact Hfd | now rewrite ntohs_htons]. }
  simpl. rewrite ntohs_htons.
  unfold mbind, M_bind, gets, print, log, modify_world, emit_all, emit. simpl.
  now rewrite <- app_assoc.
Qed.

Lemma bindSocket_busy st :
  fds (world st) !! m_serverSocket (self st) = Some Unbound ->
  env_busy E (htons (m_port (self st))) = true ->
  exists st',
    match first_free E (m_port (self st)) (world st) with
    | Some c =>
        bindSocket E st = Returns true st' /\
        m_actualPort (self st') = c /\
        fds (world st') = <[m_serverSocket (self st) := Bound (htons c)]> (fds (world st))
    | None =>
        bindSocket E st = Returns false st' /\
        fds (world st') = fds (world st) /\
        trace (world st') =
          trace (world st) ++
            EvBind (m_serverSocket (self st)) (htons (m_port (self st))) (-1) ::
            retry_trace E (m_serverSocket (self st)) (m_port (self st))
              (rng_seed (world st)) (rng_calls (world st)) 10 ++
            [EvPerror "bind failed after 10 attempts"]
    end /\
    unchanged st st'.
Proof.
  intros Hfd Hbusy. rewrite bindSocket_enter.
  match goal with |- context [_ ?s = Returns true _] => set (st0 := s) end.
  destruct (bind_loop_retries E 10 0 st0) as (st1 & Hres & Hsame).
  - reflexivity.
  - exact Hfd.
  - simpl. now rewrite ntohs_htons.
  - unfold st0 in Hres, Hsame.
    cbn [self world m_port m_serverSocket m_serverAddress set_serverAddress sin_port] in Hres.
    rewrite ntohs_htons in Hres. unfold first_free.
    destruct (List.find (port_free E)
                (candidates E (m_port (self st)) (rng_seed (world st))
                   (rng_calls (world st)) 10)) as [c |].
    + destruct Hres as (Hret & Hport & Hfds).
      exists (mk_State (self st1) (emit (EvPrint (MsgBound (m_actualPort (self st1)))) (world st1))).
      split; [split; [| split] |].
      * erewrite bind_returns by exact Hret. reflexivity.
      * exact Hport.
      * exact Hfds.
      * exact Hsame.
    + destruct Hres as (Hret & Hfds & Htrace).
      exists st1. split; [split; [| split] |].
      * erewrite bind_returns by exact Hret. reflexivity.
      * exact Hfds.
      * exact Htrace.
      * exact Hsame.
Qed.
End StartSteps.

(** ** [start] *)

Lemma bind_attempts_app t1 t2 :
  bind_attempts (t1 ++ t2) = (bind_attempts t1 + bind_attempts t2)%nat.
Proof. unfold bind_attempts. now rewrite List.filter_app, List.length_app. Qed.

Lemma retry_trace_binds E fd P seed k : forall n,
  List.filter is_bind (retry_trace E fd P seed n k) =
  List.map (fun c => EvBind fd (htons c) (-1)) (candidates E P seed n k).
Proof. induction k as [| k IH]; intros n; simpl; [reflexivity | now rewrite IH]. Qed.

Lemma candidates_length E P seed k : forall n, length (candidates E P seed n k) = k.
Proof. induction k as [| k IH]; intros n; simpl; [reflexivity | now rewrite IH]. Qed.

Lemma all_busy_no_free E P seed k :
  (forall j, 0 <= j <= 9 -> env_busy E (htons (P + j)) = true) ->
  forall n, List.find (port_free E) (candidates E P seed n k) = None.
Proof.
  intros Hbusy. induction k as [| k IH]; intros n; simpl; [reflexivity |].
  unfold port_free at 1. rewrite Hbusy by apply rand_rem_range. simpl. apply IH.
Qed.


Section Start.
Variable E : Env.

(** [start] when the requested port is taken: the retry loop decides. *)
Lemma start_busy st :
  0 <= env_socket E -> env_setsockopt_ok E = true ->
  env_busy E (htons (m_port (self st))) = true ->
  exists st',
    match first_free E (m_port (self st)) (world st) with
    | Some c =>
        env_listen_ok E = true ->
        start E st = Returns true st' /\
        m_actualPort (self st') = c /\
        m_running (self st') = true /\
        m_serverSocket (self st') = env_socket E /\
        fds (world st') !! env_socket E = Some (Listening (htons c) (m_backlog (self st)))
    | None =>
        start E st = Returns false st' /\
        m_serverSocket (self st') = env_socket E /\
        fds (world st') !! env_socket E = None /\
        trace (world st') =
          trace (world st) ++
            [EvSocket (env_socket E); EvSetsockopt (env_socket E) 0;
             EvBind (env_socket E) (htons (m_port (self st))) (-1)] ++
            retry_trace E (env_socket E) (m_port (self st))
              (rng_seed (world st)) (rng_calls (world st)) 10 ++
            [EvPerror "bind failed after 10 attempts"; EvClose (env_socket E) 0]
    end.
Proof.
  intros Hsock Hopt Hbusy. unfold start.
  erewrite bind_returns by (now apply createSocket_ok).
  match goal with |- context [_ ?s = Returns true _] => set (st1 := s) end.
  cbn [negb].
  destruct (bindSocket_busy E st1) as (st2 & Hres & Hsame).
  { unfold st1. simpl. apply lookup_insert_eq. }
  { exact Hbusy. }
  unfold st1 in Hres, Hsame. unfold first_free in Hres |- *.
  cbn [self world m_port m_serverSocket set_serverSocket emit_all set_fds
       rng_seed rng_calls fds trace] in Hres.
  destruct Hsame as (Hfd & Hport & Hback & Hrun). simpl in Hfd, Hport, Hback, Hrun.
  destruct (List.find (port_free E)
              (candidates E (m_port (self st)) (rng_seed (world st))
                 (rng_calls (world st)) 10)) as [c |].
  - destruct Hres as (Hret & Hact & Hfds).
    eexists. intros Hlisten.
    erewrite bind_returns by exact Hret. cbn [negb].
    erewrite bind_returns.
    2:{ eapply listenSocket_ok; [| exact Hlisten].
        rewrite Hfds, Hfd. apply lookup_insert_eq. }
    cbn [negb]. split; [reflexivity |]. simpl.
    repeat split; try assumption.
    rewrite Hfd, Hback. apply lookup_insert_eq.
  - destruct Hres as (Hret & Hfds & Htrace).
    eexists.
    erewrite bind_returns by exact Hret. cbn [negb].
    unfold mbind at 1, M_bind at 1, gets at 1.
    unfold mbind at 1, M_bind at 1. rewrite sys_close_spec.
    split; [reflexivity |]. cbn [self world mret M_ret].
    split; [exact Hfd | split].
    + rewrite close_world_fds, Hfd. apply lookup_delete_eq.
    + rewrite close_world_trace, Htrace. unfold close_ret.
      rewrite Hfd, Hfds, lookup_insert_eq.
      rewrite <- !app_assoc. reflexivity.
Qed.
End Start.

(** On a server whose [getPort] agrees with the requested port, as it does
    after construction: when that port is free (and the socket can be
    created, configured and put to listen), [start] succeeds at the first
    [bind], made on the requested port, and [getPort] still returns that
    port. *)
Theorem start_on_free_port (E : Env) (st : State) :
  0 <= env_socket E ->
  env_setsockopt_ok E = true ->
  env_listen_ok E = true ->
  env_busy E (htons (m_port (self st))) = false ->
  getPort (self st) = m_port (self st) ->
  exists st',
    start E st = Returns true st' /\
    getPort (self st') = m_port (self st) /\
    m_running (self st') = true /\
    fds (world st') !! m_serverSocket (self st') =
      Some (Listening (htons (m_port (self st))) (m_backlog (self st))) /\
    trace (world st') =
      trace (world st) ++
        [EvSocket (env_socket E); EvSetsockopt (env_socket E) 0;
         EvBind (env_socket E) (htons (m_port (self st))) 0;
         EvPrint (MsgBound (m_port (self st)));
         EvListen (env_socket E) (m_backlog (self st)) 0;
         EvPrint (MsgListening (m_backlog (self st)))].
Proof.
  intros Hsock Hopt Hlisten Hfree Hport. unfold getPort in Hport. unfold start.
  erewrite bind_returns by (now apply createSocket_ok). cbn [negb].
  erewrite bind_returns.
  2:{ apply bindSocket_free; simpl; [apply lookup_insert_eq | exact Hfree]. }
  cbn [negb].
  erewrite bind_returns.
  2:{ eapply listenSocket_ok; [| exact Hlisten]. simpl. apply lookup_insert_eq. }
  cbn [negb]. eexists. split; [reflexivity |]. simpl.
  repeat split.
  - exact Hport.
  - apply lookup_insert_eq.
  - rewrite Hport, <- !app_assoc. reflexivity.
Qed.

(** Port 8080 is free: a new server starts on it. *)
Lemma start_on_free_port_witness :
  exists st',
    start Scenario.quiet (fresh Scenario.quiet 8080 10 Scenario.boot) = Returns true st' /\
    getPort (self st') = 8080 /\
    m_running (self st') = true /\
    fds (world st') !! m_serverSocket (self st') = Some (Listening (htons 8080) 10) /\
    trace (world st') =
      [EvSrand 1000] ++
        [EvSocket 3; EvSetsockopt 3 0; EvBind 3 (htons 8080) 0; EvPrint (MsgBound 8080);
         EvListen 3 10 0; EvPrint (MsgListening 10)].
Proof.
  apply (start_on_free_port Scenario.quiet (fresh Scenario.quiet 8080 10 Scenario.boot)).
  - simpl. lia.
  - reflexivity.
  - reflexivity.
  - reflexivity.
  - reflexivity.
Defined.

(** C4, where the code departs from it.  A server for port 8080 fails to
    start while every port is taken, which leaves 8089, the last port
    tried, in [m_actualPort].  Started again once port 8080 is free, it
    succeeds at the first [bind] and listens on 8080, but [bindSocket] has
    not written [m_actualPort] and [getPort] returns 8089. *)
Theorem start_on_free_port_reports_old_port :
  m_port (self (final (start Scenario.crowded
                         (fresh Scenario.crowded 8080 10 Scenario.boot)))) = 8080 /\
  env_busy Scenario.quiet (htons 8080) = false /\
  returned (start Scenario.quiet
              (final (start Scenario.crowded
                        (fresh Scenario.crowded 8080 10 Scenario.boot)))) = Some true /\
  fds (world (final (start Scenario.quiet
                       (final (start Scenario.crowded
                                 (fresh Scenario.crowded 8080 10 Scenario.boot)))))) !! 3 =
    Some (Listening 8080 10) /\
  getPort (self (final (start Scenario.quiet
                          (final (start Scenario.crowded
                                    (fresh Scenario.crowded 8080 10 Scenario.boot)))))) = 8089.
Proof. vm_compute. repeat split. Qed.




(** C1, as the code has it: when the requested port and the nine ports
    after it are all taken, [start] returns false; once the socket exists
    and is configured this happens after exactly eleven calls of [bind],
    the first on the requested port and ten retries, each on the port
    [m_port + rand() % 10], which lies in [m_port .. m_port + 9]. *)
Theorem start_all_ports_busy (E : Env) (st : State) :
  (forall k, 0 <= k <= 9 -> env_busy E (htons (m_port (self st) + k)) = true) ->
  returned (start E st) = Some false /\
  (0 <= env_socket E -> env_setsockopt_ok E = true ->
     List.filter is_bind (trace (world (final (start E st)))) =
       List.filter is_bind (trace (world st)) ++
         EvBind (env_socket E) (htons (m_port (self st))) (-1) ::
         List.map (fun c => EvBind (env_socket E) (htons c) (-1))
           (candidates E (m_port (self st)) (rng_seed (world st)) (rng_calls (world st)) 10) /\
     bind_attempts (trace (world (final (start E st)))) =
       (bind_attempts (trace (world st)) + 11)%nat) /\
  Forall (fun c => m_port (self st) <= c <= m_port (self st) + 9)
    (candidates E (m_port (self st)) (rng_seed (world st)) (rng_calls (world st)) 10).
Proof.
  intros Hbusy.
  assert (Hbusy0 : env_busy E (htons (m_port (self st))) = true).
  { rewrite <- (Z.add_0_r (m_port (self st))). apply Hbusy. lia. }
  assert (Hnone : first_free E (m_port (self st)) (world st) = None).
  { unfold first_free. now apply all_busy_no_free. }
  split; [| split].
  - destruct (Z.leb_spec 0 (env_socket E)) as [Hsock | Hsock].
    + destruct (env_setsockopt_ok E) eqn:Hopt.
      * destruct (start_busy E st Hsock Hopt Hbusy0) as (st' & Hres).
        rewrite Hnone in Hres. destruct Hres as (Hret & _). now rewrite Hret.
      * unfold start. erewrite bind_returns by (now apply createSocket_no_option).
        reflexivity.
    + unfold start. erewrite bind_returns by (now apply createSocket_no_socket).
      reflexivity.
  - intros Hsock Hopt.
    destruct (start_busy E st Hsock Hopt Hbusy0) as (st' & Hres).
    rewrite Hnone in Hres. destruct Hres as (Hret & _ & _ & Htrace).
    rewrite Hret. cbn [final].
    assert (Hbinds :
      List.filter is_bind (trace (world st')) =
        List.filter is_bind (trace (world st)) ++
          EvBind (env_socket E) (htons (m_port (self st))) (-1) ::
          List.map (fun c => EvBind (env_socket E) (htons c) (-1))
            (candidates E (m_port (self st)) (rng_seed (world st)) (rng_calls (world st)) 10)).
    { rewrite Htrace, !List.filter_app, retry_trace_binds. cbn [List.filter is_bind].
      now rewrite app_nil_r. }
    split; [exact Hbinds |].
    unfold bind_attempts. rewrite Hbinds, List.length_app. cbn [length].
    now rewrite List.length_map, candidates_length.
  - apply candidates_range.
Qed.

(** Every port is taken: eleven failed calls of [bind], on 8080 and then on
    8080, 8081, ..., 8089 as [rand] counts up. *)
Lemma start_all_ports_busy_witness :
  returned (start Scenario.crowded (fresh Scenario.crowded 8080 10 Scenario.boot)) = Some false /\
  (0 <= 3 -> true = true ->
     List.filter is_bind
       (trace (world (final (start Scenario.crowded
                               (fresh Scenario.crowded 8080 10 Scenario.boot))))) =
       [] ++ EvBind 3 (htons 8080) (-1) ::
         List.map (fun c => EvBind 3 (htons c) (-1))
           (candidates Scenario.crowded 8080 1000 0 10) /\
     bind_attempts
       (trace (world (final (start Scenario.crowded
                               (fresh Scenario.crowded 8080 10 Scenario.boot))))) =
       (0 + 11)%nat) /\
  Forall (fun c => 8080 <= c <= 8080 + 9) (candidates Scenario.crowded 8080 1000 0 10).
Proof.
  apply (start_all_ports_busy Scenario.crowded (fresh Scenario.crowded 8080 10 Scenario.boot)).
  intros k Hk. reflexivity.
Defined.

(** Against C1 as stated: with every port taken, [start] fails after
    eleven calls of [bind], not ten. *)
Lemma start_all_busy_not_ten_binds :
  (forall k, 0 <= k <= 9 -> env_busy Scenario.crowded (htons (8080 + k)) = true) /\
  ~ (returned (start Scenario.crowded (fresh Scenario.crowded 8080 10 Scenario.boot)) = Some false /\
     bind_attempts
       (trace (world (final (start Scenario.crowded
                               (fresh Scenario.crowded 8080 10 Scenario.boot))))) = 10%nat).
Proof.
  split.
  - intros k Hk. reflexivity.
  - intros [_ H]. vm_compute in H. discriminate.
Qed.

(** [start] when [setsockopt] fails: it returns false without closing the
    socket it has just created. *)
Lemma start_no_option (E : Env) (st : State) :
  0 <= env_socket E -> env_setsockopt_ok E = false ->
  start E st =
    Returns false
      (mk_State (set_serverSocket (env_socket E) (self st))
         (emit_all [EvSocket (env_socket E); EvSetsockopt (env_socket E) (-1);
                    EvPerror "setsockopt failed"]
            (set_fds (<[env_socket E := Unbound]> (fds (world st))) (world st)))).
Proof.
  intros Hsock Hopt. unfold start.
  erewrite bind_returns by (now apply createSocket_no_option). reflexivity.
Qed.

(** C2, where the code departs from it.  With [setsockopt] failing, [start]
    returns false and descriptor 3 is still open, held in [m_serverSocket],
    and neither bound nor listening.  With every port taken, [start]
    returns false and has closed descriptor 3, but [m_serverSocket] still
    holds 3, so that a later [stop] closes descriptor 3 a second time. *)
Theorem start_failure_keeps_descriptor :
  (returned (start Scenario.no_reuse (fresh Scenario.no_reuse 8080 10 Scenario.boot)) = Some false /\
   m_serverSocket (self (final (start Scenario.no_reuse
                                  (fresh Scenario.no_reuse 8080 10 Scenario.boot)))) = 3 /\
   fds (world (final (start Scenario.no_reuse
                        (fresh Scenario.no_reuse 8080 10 Scenario.boot)))) !! 3 = Some Unbound /\
   bound_or_listening (final (start Scenario.no_reuse
                                (fresh Scenario.no_reuse 8080 10 Scenario.boot))) = false) /\
  (returned (start Scenario.crowded (fresh Scenario.crowded 8080 10 Scenario.boot)) = Some false /\
   m_serverSocket (self (final (start Scenario.crowded
                                  (fresh Scenario.crowded 8080 10 Scenario.boot)))) = 3 /\
   fds (world (final (start Scenario.crowded
                        (fresh Scenario.crowded 8080 10 Scenario.boot)))) !! 3 = None /\
   bound_or_listening (final (start Scenario.crowded
                                (fresh Scenario.crowded 8080 10 Scenario.boot))) = false /\
   List.filter (fun e => match e with EvClose _ _ => true | _ => false end)
     (trace (world (final (stop (final (start Scenario.crowded
                                          (fresh Scenario.crowded 8080 10 Scenario.boot))))))) =
     [EvClose 3 0; EvClose 3 (-1)]).
Proof. vm_compute. repeat split. Qed.

(** C10: [start], [run], [stop] and the connection handler leave the
    requested port and the backlog as the constructor set them, whether
    they return or stay blocked. *)
Theorem config_is_never_written (E : Env) (st : State) (script : list arrival)
    (clientSocket : Z) (clientAddr : sockaddr_in) :
  same_config st (final (start E st)) /\
  same_config st (final (run script st)) /\
  same_config st (final (stop st)) /\
  same_config st (final (handleClient clientSocket clientAddr st)) /\
  m_port (self (fresh E (m_port (self st)) (m_backlog (self st)) (world st))) = m_port (self st) /\
  m_backlog (self (fresh E (m_port (self st)) (m_backlog (self st)) (world st))) =
    m_backlog (self st).
Proof.
  repeat split;
    first [ apply keeps_start | apply keeps_run | apply keeps_stop | apply keeps_handleClient ].
Qed.


(** A listening server whose [accept] fails reports it and waits again. *)
Lemma accept_failure_policy_witness :
  run_loop [Scenario.refused; Scenario.interrupted] Scenario.listening =
    run_loop [Scenario.interrupted]
      (mk_State (self Scenario.listening)
         (emit_all [EvAccept 3 (-1); EvPerror "accept failed"] (world Scenario.listening))).
Proof.
  apply (accept_failure_policy Scenario.listening Scenario.refused [Scenario.interrupted]).
  - reflexivity.
  - simpl. lia.
  - reflexivity.
Defined.


(** * Further properties *)

(** ** Every way through [start] *)

Lemma listenSocket_fail (E : Env) st port :
  fds (world st) !! m_serverSocket (self st) = Some (Bound port) ->
  env_listen_ok E = false ->
  listenSocket E st =
    Returns false
      (mk_State (self st)
         (emit_all [EvListen (m_serverSocket (self st)) (m_backlog (self st)) (-1);
                    EvPerror "listen failed"] (world st))).
Proof.
  intros Hfd Hok.
  unfold listenSocket, sys_listen, mbind, M_bind, gets, getw, perror, log, modify_world.
  simpl. rewrite Hfd, Hok. simpl.
  unfold emit_all, emit. simpl. now rewrite <- app_assoc.
Qed.

Lemma bindSocket_outcome (E : Env) st :
  fds (world st) !! m_serverSocket (self st) = Some Unbound ->
  exists st',
    unchanged st st' /\
    match bound_port E st with
    | Some c =>
        bindSocket E st = Returns true st' /\
        fds (world st') = <[m_serverSocket (self st) := Bound (htons c)]> (fds (world st)) /\
        m_actualPort (self st') =
          (if env_busy E (htons (m_port (self st))) then c else m_actualPort (self st))
    | None => bindSocket E st = Returns false st' /\ fds (world st') = fds (world st)
    end.
Proof.
  intros Hfd. unfold bound_port.
  destruct (env_busy E (htons (m_port (self st)))) eqn:Hbusy.
  - destruct (bindSocket_busy E st Hfd Hbusy) as (st' & Hres & Hsame).
    exists st'. split; [exact Hsame |].
    destruct (first_free E (m_port (self st)) (world st)) as [c |].
    + destruct Hres as (Hret & Hact & Hfds). now repeat split.
    + destruct Hres as (Hret & Hfds & _). now split.
  - eexists. split; [| split; [now apply bindSocket_free | split; reflexivity]].
    now repeat split.
Qed.

Lemma start_outcome (E : Env) st :
  exists st',
    start E st = Returns (start_succeeds E st) st' /\
    m_serverSocket (self st') = env_socket E /\
    m_running (self st') = start_succeeds E st || m_running (self st) /\
    fds (world st') = start_fds E st /\
    (forall c, start_succeeds E st = true -> bound_port E st = Some c ->
       m_actualPort (self st') =
         (if env_busy E (htons (m_port (self st))) then c else m_actualPort (self st))).
Proof.
  unfold start_succeeds, start_fds. cbv zeta.
  destruct (Z.leb_spec 0 (env_socket E)) as [Hsock | Hsock];
    destruct (Z.ltb_spec (env_socket E) 0) as [Hneg | Hpos]; try lia.
  2:{ eexists. split; [| split; [| split; [| split]]].
      - unfold start. erewrite bind_returns by (now apply createSocket_no_socket). reflexivity.
      - reflexivity.
      - reflexivity.
      - reflexivity.
      - intros c H. discriminate. }
  destruct (env_setsockopt_ok E) eqn:Hopt.
  2:{ eexists. split; [| split; [| split; [| split]]].
      - now apply start_no_option.
      - reflexivity.
      - reflexivity.
      - reflexivity.
      - intros c H. discriminate. }
  cbn [andb negb].
  pose proof (createSocket_ok E st Hsock Hopt) as Hcreate.
  match type of Hcreate with _ = Returns true ?s => set (st1 := s) in * end.
  assert (Hfd1 : fds (world st1) !! m_serverSocket (self st1) = Some Unbound).
  { unfold st1. simpl. apply lookup_insert_eq. }
  destruct (bindSocket_outcome E st1 Hfd1) as (st2 & Hsame & Hbind).
  change (bound_port E st1) with (bound_port E st) in Hbind.
  destruct Hsame as (Hfd & Hport & Hback & Hrun).
  change (m_serverSocket (self st1)) with (env_socket E) in *.
  change (m_port (self st1)) with (m_port (self st)) in *.
  change (m_backlog (self st1)) with (m_backlog (self st)) in *.
  change (m_running (self st1)) with (m_running (self st)) in *.
  change (m_actualPort (self st1)) with (m_actualPort (self st)) in *.
  change (fds (world st1)) with (<[env_socket E := Unbound]> (fds (world st))) in *.
  unfold start. erewrite bind_returns by exact Hcreate. cbn [negb].
  destruct (bound_port E st) as [c |].
  - destruct Hbind as (Hret & Hfds & Hact).
    erewrite bind_returns by exact Hret. cbn [negb].
    destruct (env_listen_ok E) eqn:Hlisten.
    + erewrite bind_returns.
      2:{ eapply listenSocket_ok; [| exact Hlisten]. rewrite Hfds, Hfd. apply lookup_insert_eq. }
      cbn [negb]. eexists. split; [reflexivity |]. simpl.
      split; [exact Hfd | split; [reflexivity | split]].
      * rewrite Hfds, Hfd, Hback. now rewrite !insert_insert_eq.
      * intros c' _ Hc. injection Hc as <-. exact Hact.
    + erewrite bind_returns.
      2:{ eapply listenSocket_fail; [| exact Hlisten]. rewrite Hfds, Hfd. apply lookup_insert_eq. }
      cbn [negb].
      unfold mbind at 1, M_bind at 1, gets at 1.
      unfold mbind at 1, M_bind at 1. rewrite sys_close_spec.
      eexists. split; [reflexivity |]. cbn [self world mret M_ret].
      split; [exact Hfd | split; [now rewrite Hrun | split]].
      * rewrite close_world_fds. cbn [fds emit_all world]. rewrite Hfds, Hfd.
        now rewrite !delete_insert_eq.
      * intros c' H. discriminate.
  - destruct Hbind as (Hret & Hfds).
    erewrite bind_returns by exact Hret. cbn [negb].
    unfold mbind at 1, M_bind at 1, gets at 1.
    unfold mbind at 1, M_bind at 1. rewrite sys_close_spec.
    eexists. split; [reflexivity |]. cbn [self world mret M_ret].
    split; [exact Hfd | split; [now rewrite Hrun | split]].
    + rewrite close_world_fds, Hfds, Hfd. now rewrite delete_insert_eq.
    + intros c' H. discriminate.
Qed.







(** X4: when [start] returns false the running flag is as it was, and the
    descriptor [socket] returned, if any, is closed again, except when it
    was [setsockopt] that failed: then it is left open and unbound.  In
    both cases [m_serverSocket] still holds it. *)
Theorem start_failure_state (E : Env) (st : State) :
  returned (start E st) = Some false ->
  m_running (self (final (start E st))) = m_running (self st) /\
  m_serverSocket (self (final (start E st))) = env_socket E /\
  (0 <= env_socket E ->
     if env_setsockopt_ok E
     then fds (world (final (start E st))) !! env_socket E = None
     else fds (world (final (start E st))) !! env_socket E = Some Unbound).
Proof.
  destruct (start_outcome E st) as (st' & Hret & Hfd & Hrun & Hfds & _).
  rewrite Hret. cbn [returned final]. intros [= Hok].
  rewrite Hok in Hrun. split; [exact Hrun | split; [exact Hfd |]].
  intros Hsock. rewrite Hfds. unfold start_fds. cbv zeta.
  unfold start_succeeds in Hok.
  destruct (Z.leb_spec 0 (env_socket E)); [| lia].
  destruct (Z.ltb_spec (env_socket E) 0); [lia |].
  destruct (env_setsockopt_ok E); cbn [negb andb] in Hok |- *.
  - destruct (bound_port E st) as [c |]; [| apply lookup_delete_eq].
    destruct (env_listen_ok E); [discriminate | apply lookup_delete_eq].
  - apply lookup_insert_eq.
Qed.

(** With every port taken the descriptor is closed and still held. *)
Lemma start_failure_state_witness :
  m_running (self (final (start Scenario.crowded (fresh Scenario.crowded 8080 10 Scenario.boot)))) =
    false /\
  m_serverSocket
    (self (final (start Scenario.crowded (fresh Scenario.crowded 8080 10 Scenario.boot)))) = 3 /\
  (0 <= 3 ->
     fds (world (final (start Scenario.crowded (fresh Scenario.crowded 8080 10 Scenario.boot))))
       !! 3 = None).
Proof.
  apply (start_failure_state Scenario.crowded (fresh Scenario.crowded 8080 10 Scenario.boot)).
  reflexivity.
Defined.

(** X5: [start] followed by [stop], as the destructor does after a failed
    [start], leaves no trace in the descriptor table: on every path through
    [start] the descriptor [socket] returned is closed afterwards, every
    other descriptor is as before, the handle is invalid and the server is
    not running. *)
Theorem start_then_stop_releases (E : Env) (st : State) :
  fds (world st) !! env_socket E = None ->
  fds (world (final (stop (final (start E st))))) = fds (world st) /\
  m_serverSocket (self (final (stop (final (start E st))))) < 0 /\
  m_running (self (final (stop (final (start E st))))) = false.
Proof.
  intros Hnew.
  destruct (start_outcome E st) as (st' & Hret & Hfd & _ & Hfds & _).
  rewrite Hret. cbn [final]. rewrite stop_spec. rewrite Hfd.
  destruct (Z.leb_spec 0 (env_socket E)) as [Hsock | Hsock]; cbn [final self world].
  - split; [| split; [simpl; lia | reflexivity]].
    cbn [fds emit]. rewrite close_world_fds, Hfds.
    unfold start_fds. cbv zeta.
    destruct (Z.ltb_spec (env_socket E) 0); [lia |].
    destruct (env_setsockopt_ok E); cbn [negb].
    + destruct (bound_port E st) as [c |].
      * destruct (env_listen_ok E).
        -- rewrite delete_insert_eq. now apply delete_id.
        -- rewrite delete_delete_eq. now apply delete_id.
      * rewrite delete_delete_eq. now apply delete_id.
    + rewrite delete_insert_eq. now apply delete_id.
  - split; [| split; [simpl; lia | reflexivity]].
    rewrite Hfds. unfold start_fds. cbv zeta.
    destruct (Z.ltb_spec (env_socket E) 0); [reflexivity | lia].
Qed.

(** A failed start on a crowded machine, then the destructor. *)
Lemma start_then_stop_releases_witness :
  fds (world (final (stop (final (start Scenario.crowded
                                    (fresh Scenario.crowded 8080 10 Scenario.boot)))))) = ∅ /\
  m_serverSocket
    (self (final (stop (final (start Scenario.crowded
                                 (fresh Scenario.crowded 8080 10 Scenario.boot)))))) < 0 /\
  m_running
    (self (final (stop (final (start Scenario.crowded
                                 (fresh Scenario.crowded 8080 10 Scenario.boot)))))) = false.
Proof.
  apply (start_then_stop_releases Scenario.crowded (fresh Scenario.crowded 8080 10 Scenario.boot)).
  reflexivity.
Defined.

(** ** The accept loop over a whole script *)

Lemma run_loop_arrival a rest st :
  m_running (self st) = true -> stop_called a = false ->
  run_loop (a :: rest) st =
    run_loop rest (mk_State (self st) (after_arrival (m_serverSocket (self st)) a (world st))).
Proof.
  intros Hrun Hstop. unfold after_arrival.
  destruct (Z.ltb_spec (accept_ret a) 0) as [Hret | Hret].
  - now apply run_loop_accept_failed.
  - rewrite run_loop_served by assumption. now rewrite Hstop.
Qed.

Lemma run_loop_last a rest st :
  m_running (self st) = true -> stop_called a = true ->
  run_loop (a :: rest) st =
    Returns tt
      (mk_State (self (final (stop st)))
         (after_last_arrival (m_serverSocket (self st)) a (world (final (stop st))))).
Proof.
  intros Hrun Hstop. unfold after_last_arrival.
  destruct (Z.ltb_spec (accept_ret a) 0) as [Hret | Hret].
  - now apply run_loop_accept_stopped.
  - rewrite run_loop_served by assumption. rewrite Hstop.
    apply run_loop_not_running. apply stop_not_running.
Qed.










Lemma run_enter script st :
  run script st =
    run_loop script
      (mk_State (self st) (emit (EvPrint (MsgRunning (m_actualPort (self st)))) (world st))).
Proof. reflexivity. Qed.










(** ** Budgets of calls *)

Lemma calls_app k l1 l2 : calls k (l1 ++ l2) = (calls k l1 + calls k l2)%nat.
Proof. unfold calls. now rewrite List.filter_app, List.length_app. Qed.

Section Budget.
Context {A B : Type}.

Lemma within_weaken (b b' : call -> nat) (m : M A) :
  within b m -> (forall k, (b k <= b' k)%nat) -> within b' m.
Proof.
  intros Hm Hle st. destruct (Hm st) as (l & Htrace & Hb).
  exists l. split; [exact Htrace |]. intros k. specialize (Hb k). specialize (Hle k). lia.
Qed.

Lemma within_quiet (m : M A) :
  (forall st, trace (world (final (m st))) = trace (world st)) -> within none m.
Proof.
  intros H st. exists []. split; [now rewrite app_nil_r | intros k; apply Nat.le_refl].
Qed.

Lemma within_ret (a : A) : within none (mret a).
Proof. now apply within_quiet. Qed.

Lemma within_pending : within none (@pending A).
Proof. now apply within_quiet. Qed.

Lemma within_gets (f : Server -> A) : within none (gets f).
Proof. now apply within_quiet. Qed.

Lemma within_getw (f : World -> A) : within none (getw f).
Proof. now apply within_quiet. Qed.

Lemma within_bind (b1 b2 : call -> nat) (m : M A) (f : A -> M B) :
  within b1 m -> (forall a, within b2 (f a)) ->
  within (fun k => (b1 k + b2 k)%nat) (m ≫= f).
Proof.
  intros Hm Hf st. destruct (Hm st) as (l1 & Htrace1 & Hb1).
  unfold mbind, M_bind. destruct (m st) as [a st1 | st1]; cbn [final] in Htrace1 |- *.
  - destruct (Hf a st1) as (l2 & Htrace2 & Hb2).
    exists (l1 ++ l2). split.
    + now rewrite Htrace2, Htrace1, <- app_assoc.
    + intros k. rewrite calls_app. specialize (Hb1 k). specialize (Hb2 k). lia.
  - exists l1. split; [exact Htrace1 |]. intros k. specialize (Hb1 k). lia.
Qed.

Lemma within_if (b1 b2 : call -> nat) (c : bool) (m1 m2 : M A) :
  within b1 m1 -> within b2 m2 ->
  within (fun k => Nat.max (b1 k) (b2 k)) (if c then m1 else m2).
Proof.
  intros H1 H2. destruct c.
  - eapply within_weaken; [exact H1 | intros k; lia].
  - eapply within_weaken; [exact H2 | intros k; lia].
Qed.
End Budget.

Lemma within_modify_self f : within none (modify_self f).
Proof. now apply within_quiet. Qed.

Lemma within_log e : within (one (call_of e)) (log e).
Proof.
  intros st. exists [e]. split; [reflexivity |].
  intros k. unfold calls, one. cbn [List.filter].
  destruct (call_eqb (call_of e) k); simpl; lia.
Qed.

Lemma within_perror msg : within (one CPerror) (perror msg).
Proof. apply (within_log (EvPerror msg)). Qed.

Lemma within_print msg : within (one CPrint) (print msg).
Proof. apply (within_log (EvPrint msg)). Qed.

(** Builds the budget of a computation from the budgets of its parts. *)
Ltac budget_step :=
  match goal with
  | |- within _ (_ ≫= _) => eapply within_bind; [| intros ?]
  | |- within _ (mret _) => apply within_ret
  | |- within _ pending => apply within_pending
  | |- within _ (gets _) => apply within_gets
  | |- within _ (getw _) => apply within_getw
  | |- within _ (modify_self _) => apply within_modify_self
  | |- within _ (perror _) => apply within_perror
  | |- within _ (print _) => apply within_print
  | |- within _ (if _ then _ else _) => eapply within_if
  end.

Ltac budget := repeat budget_step.

(** Settles a comparison of budgets kind by kind. *)
Ltac budget_le :=
  let k := fresh "k" in
  intros k; destruct k; unfold one, none, loop_budget; cbn [call_eqb]; lia.

Section BudgetOfCalls.
Variable E : Env.

Lemma within_sys_srand seed : within (one CSrand) (sys_srand seed).
Proof. intros st. exists [EvSrand seed]. split; [reflexivity | intros k; destruct k; cbv; lia]. Qed.

Lemma within_sys_rand : within (one CRand) (sys_rand E).
Proof.
  intros st.
  exists [EvRand (Z.of_N (env_rand E (rng_seed (world st)) (rng_calls (world st))))].
  split; [reflexivity | intros k; destruct k; cbv; lia].
Qed.

Lemma within_sys_socket : within (one CSocket) (sys_socket E).
Proof.
  intros st. exists [EvSocket (env_socket E)]. split.
  - unfold sys_socket, mbind, M_bind. now destruct (0 <=? env_socket E).
  - intros k; destruct k; cbv; lia.
Qed.

Lemma within_sys_setsockopt fd : within (one CSetsockopt) (sys_setsockopt E fd).
Proof.
  intros st. eexists. split; [reflexivity |]. intros k; destruct k; cbv; lia.
Qed.

Lemma within_sys_bind fd addr : within (one CBind) (sys_bind E fd addr).
Proof.
  intros st. unfold sys_bind, mbind, M_bind, getw.
  destruct (fds (world st) !! fd) as [[| | |] |];
    [destruct (env_busy E (ntohs (sin_port addr))) | | | |];
    (eexists; split; [reflexivity | intros k; destruct k; cbv; lia]).
Qed.

Lemma within_sys_listen fd backlog : within (one CListen) (sys_listen E fd backlog).
Proof.
  intros st. unfold sys_listen, mbind, M_bind, getw.
  destruct (fds (world st) !! fd) as [[| | |] |];
    [| destruct (env_listen_ok E) | | |];
    (eexists; split; [reflexivity | intros k; destruct k; cbv; lia]).
Qed.

Lemma within_sys_accept fd a : within (one CAccept) (sys_accept fd a).
Proof.
  intros st. exists [EvAccept fd (accept_ret a)]. split.
  - unfold sys_accept, mbind, M_bind. now destruct (0 <=? accept_ret a).
  - intros k; destruct k; cbv; lia.
Qed.

Lemma within_sys_send fd buf len : within (one CSend) (sys_send fd buf len).
Proof. apply within_log. Qed.

Lemma within_sys_close fd : within (one CClose) (sys_close fd).
Proof.
  intros st. rewrite sys_close_spec. cbn [final world]. rewrite close_world_trace.
  eexists. split; [reflexivity | intros k; destruct k; cbv; lia].
Qed.
End BudgetOfCalls.

Section BudgetOfMethods.
Variable E : Env.

Lemma within_createSocket :
  within (fun k => match k with CSocket | CSetsockopt | CPerror => 1 | _ => 0 end)%nat
    (createSocket E).
Proof.
  eapply within_weaken.
  - unfold createSocket. budget; [apply within_sys_socket | apply within_sys_setsockopt].
  - budget_le.
Qed.

Lemma within_bind_loop fuel : forall attempts,
  within (loop_budget attempts) (bind_loop E fuel attempts).
Proof.
  induction fuel as [| fuel IH]; intros attempts; cbn [bind_loop].
  - eapply within_weaken; [apply within_pending | budget_le].
  - destruct (Z.leb_spec 10 attempts) as [Hatt | Hatt].
    + eapply within_weaken.
      * budget. apply within_sys_bind.
      * budget_le.
    + eapply within_weaken.
      * budget; [apply within_sys_bind | apply within_sys_rand | apply IH].
      * budget_le.
Qed.

Lemma within_bindSocket :
  within (fun k => match k with CBind => 11 | CRand => 10 | CPerror | CPrint => 1 | _ => 0 end)%nat
    (bindSocket E).
Proof.
  eapply within_weaken.
  - unfold bindSocket. budget. apply within_bind_loop.
  - budget_le.
Qed.

Lemma within_listenSocket :
  within (fun k => match k with CListen | CPerror | CPrint => 1 | _ => 0 end)%nat
    (listenSocket E).
Proof.
  eapply within_weaken.
  - unfold listenSocket. budget. apply within_sys_listen.
  - budget_le.
Qed.

Lemma within_start :
  within (fun k => match k with
                   | CSocket | CSetsockopt | CListen | CClose => 1
                   | CBind => 11
                   | CRand => 10
                   | CPerror => 3
                   | CPrint => 2
                   | CSrand | CAccept | CSend => 0
                   end)%nat
    (start E).
Proof.
  eapply within_weaken.
  - unfold start. budget;
      first [ apply within_createSocket | apply within_bindSocket
            | apply within_listenSocket | apply within_sys_close ].
  - budget_le.
Qed.

Lemma within_stop :
  within (fun k => match k with CClose | CPrint => 1 | _ => 0 end)%nat stop.
Proof.
  eapply within_weaken.
  - unfold stop. budget. apply within_sys_close.
  - budget_le.
Qed.

Lemma within_handleClient fd addr :
  within (fun k => match k with CSend | CClose => 1 | CPrint => 2 | _ => 0 end)%nat
    (handleClient fd addr).
Proof.
  eapply within_weaken.
  - unfold handleClient. cbv zeta. budget; [apply within_sys_send | apply within_sys_close].
  - budget_le.
Qed.

Lemma within_run_loop script :
  within (fun k => match k with
                   | CAccept | CSend | CPerror => length script
                   | CClose => 2 * length script
                   | CPrint => 3 * length script
                   | _ => 0
                   end)%nat
    (run_loop script).
Proof.
  induction script as [| a rest IH]; cbn [run_loop length].
  - eapply within_weaken; [budget | budget_le].
  - eapply within_weaken.
    + budget;
        first [ apply within_stop | apply within_sys_accept | apply within_handleClient
              | apply IH ].
    + budget_le.
Qed.
End BudgetOfMethods.

(** X11: whatever the environment does, one call of [start] only adds to
    the trace, and what it adds holds at most one call each of [socket],
    [setsockopt], [listen] and [close], at most eleven calls of [bind] and
    ten of [rand], and no call of [accept], [send] or [srand]. *)
Theorem start_call_budget (E : Env) (st : State) :
  exists l,
    trace (world (final (start E st))) = trace (world st) ++ l /\
    (calls CSocket l <= 1)%nat /\
    (calls CSetsockopt l <= 1)%nat /\
    (calls CBind l <= 11)%nat /\
    (calls CRand l <= 10)%nat /\
    (calls CListen l <= 1)%nat /\
    (calls CClose l <= 1)%nat /\
    calls CAccept l = 0%nat /\
    calls CSend l = 0%nat /\
    calls CSrand l = 0%nat.
Proof.
  destruct (within_start E st) as (l & Htrace & Hb).
  exists l. split; [exact Htrace |].
  pose proof (Hb CSocket). pose proof (Hb CSetsockopt). pose proof (Hb CBind).
  pose proof (Hb CRand). pose proof (Hb CListen). pose proof (Hb CClose).
  pose proof (Hb CAccept). pose proof (Hb CSend). pose proof (Hb CSrand).
  cbv beta iota in *. repeat split; lia.
Qed.

(** X12: whatever arrives and whenever [stop] is called, [run] only adds to
    the trace; it calls [accept] at most once per arrival and [send] at
    most once per arrival, and it never calls [socket], [setsockopt],
    [bind], [listen], [rand] or [srand]. *)
Theorem run_call_budget (st : State) (script : list arrival) :
  exists l,
    trace (world (final (run script st))) = trace (world st) ++ l /\
    (calls CAccept l <= length script)%nat /\
    (calls CSend l <= length script)%nat /\
    calls CSocket l = 0%nat /\
    calls CSetsockopt l = 0%nat /\
    calls CBind l = 0%nat /\
    calls CListen l = 0%nat /\
    calls CRand l = 0%nat /\
    calls CSrand l = 0%nat.
Proof.
  assert (Hrun : within (fun k => match k with
                                  | CAccept | CSend | CPerror => length script
                                  | CClose => 2 * length script
                                  | CPrint => S (3 * length script)
                                  | _ => 0
                                  end)%nat (run script)).
  { eapply within_weaken.
    - unfold run. budget. apply within_run_loop.
    - budget_le. }
  destruct (Hrun st) as (l & Htrace & Hb).
  exists l. split; [exact Htrace |].
  pose proof (Hb CAccept). pose proof (Hb CSend). pose proof (Hb CSocket).
  pose proof (Hb CSetsockopt). pose proof (Hb CBind). pose proof (Hb CListen).
  pose proof (Hb CRand). pose proof (Hb CSrand).
  cbv beta iota in *. repeat split; lia.
Qed.

(** ** Descriptors other than the server's own *)

(** X14: [start] touches no descriptor but the one [socket] returns, and
    [stop] none but the one held in [m_serverSocket].  A descriptor the
    server held before a second [start] is therefore neither closed nor
    used again: it stays as it was while the handle moves on. *)
Theorem start_stop_touch_one_descriptor (E : Env) (st : State) (k : Z) :
  (k <> env_socket E ->
     fds (world (final (start E st))) !! k = fds (world st) !! k) /\
  (k <> m_serverSocket (self st) ->
     fds (world (final (stop st))) !! k = fds (world st) !! k).
Proof.
  split; intros Hk.
  - destruct (start_outcome E st) as (st' & Hret & _ & _ & Hfds & _).
    rewrite Hret. cbn [final]. rewrite Hfds. unfold start_fds. cbv zeta.
    destruct (env_socket E <? 0); [reflexivity |].
    destruct (negb (env_setsockopt_ok E)); [now apply lookup_insert_ne |].
    destruct (bound_port E st) as [c |]; [destruct (env_listen_ok E) |];
      (apply lookup_insert_ne || apply lookup_delete_ne); congruence.
  - rewrite stop_spec. destruct (0 <=? m_serverSocket (self st)); cbn [final world];
      [| reflexivity].
    cbn [fds emit]. rewrite close_world_fds. apply lookup_delete_ne. congruence.
Qed.

(** Started a second time while listening on descriptor 3, with [socket]
    now returning 5: descriptor 3 goes on listening, out of the server's
    reach.  And stopping the moved server leaves descriptor 7 alone. *)
Lemma start_stop_touch_one_descriptor_witness :
  fds (world (final (start Restart.next_socket Scenario.listening))) !! 3 =
    fds (world Scenario.listening) !! 3 /\
  fds (world (final (stop Restart.moved))) !! 7 = fds (world Restart.moved) !! 7.
Proof.
  split.
  - apply (start_stop_touch_one_descriptor Restart.next_socket Scenario.listening 3).
    intros H. vm_compute in H. discriminate.
  - apply (start_stop_touch_one_descriptor Scenario.quiet Restart.moved 7).
    intros H. vm_compute in H. discriminate.
Defined.



(** * The program with its exceptional exits *)

(** ** The throwing methods against the plain ones *)

Section Simulation.
Context {A B : Type}.
Variable strict : bool.

Lemma sim_lift (m : M A) : sim strict (lift m) m.
Proof. intros st. unfold lift. now destruct (m st). Qed.

Lemma sim_ret (a : A) : sim strict (mret a) (mret a).
Proof. intros st. reflexivity. Qed.

Lemma sim_bind (mx : MX A) (m : M A) (fx : A -> MX B) (f : A -> M B) :
  sim strict mx m -> (forall a, sim strict (fx a) (f a)) ->
  sim strict (mx ≫= fx) (m ≫= f).
Proof.
  intros Hm Hf st. specialize (Hm st). unfold mbind, MX_bind, M_bind.
  destruct (mx st) as [a st1 | st1 | what st1 | st1].
  - rewrite Hm. apply Hf.
  - now rewrite Hm.
  - exact Hm.
  - exact Hm.
Qed.

Lemma sim_noexcept (mx : MX A) (m : M A) : sim strict mx m -> sim strict (noexcept mx) m.
Proof.
  intros Hm st. specialize (Hm st). unfold noexcept.
  now destruct (mx st).
Qed.
End Simulation.

(** Walks through a throwing method and its plain counterpart in step. *)
Ltac sim_step :=
  match goal with
  | |- sim _ (lift _) _ => apply sim_lift
  | |- sim _ (mret _) (mret _) => apply sim_ret
  | |- sim _ (_ ≫= _) (_ ≫= _) => apply sim_bind; [| intros ?]
  | |- sim _ (noexcept _) _ => apply sim_noexcept
  | |- sim _ (if ?c then _ else _) (if ?c then _ else _) => destruct c
  | |- sim _ (match ?x with _ => _ end) (match ?x with _ => _ end) => destruct x
  end.

Section SimulationOfMethods.
Variable E : Env.
Variable io : Stdio.
Variable strict : bool.
Hypothesis Hio : strict = true -> forall w msg, print_error io w msg = None.

Lemma sim_print msg : sim strict (Throwing.print io msg) (print msg).
Proof.
  intros st. unfold Throwing.print.
  destruct (print_error io (world st) msg) eqn:Herr.
  - destruct strict; [| reflexivity]. rewrite Hio in Herr by reflexivity. discriminate.
  - reflexivity.
Qed.

Lemma sim_bindSocket : sim strict (Throwing.bindSocket E io) (bindSocket E).
Proof. unfold Throwing.bindSocket, bindSocket. repeat sim_step. apply sim_print. Qed.

Lemma sim_listenSocket : sim strict (Throwing.listenSocket E io) (listenSocket E).
Proof. unfold Throwing.listenSocket, listenSocket. repeat sim_step. apply sim_print. Qed.

Lemma sim_start : sim strict (Throwing.start E io) (start E).
Proof.
  unfold Throwing.start, start.
  repeat sim_step; first [apply sim_bindSocket | apply sim_listenSocket].
Qed.

Lemma sim_handleClient fd addr :
  sim strict (Throwing.handleClient io fd addr) (handleClient fd addr).
Proof.
  unfold Throwing.handleClient, handleClient. cbv zeta. repeat sim_step; apply sim_print.
Qed.

Lemma sim_stop : sim strict (Throwing.stop io) stop.
Proof. unfold Throwing.stop, stop. repeat sim_step. apply sim_print. Qed.

Lemma sim_run_loop script : sim strict (Throwing.run_loop io script) (run_loop script).
Proof.
  induction script as [| a rest IH]; cbn [Throwing.run_loop run_loop].
  - repeat sim_step.
  - repeat sim_step; first [apply sim_stop | apply sim_handleClient | apply IH].
Qed.

Lemma sim_run script : sim strict (Throwing.run io script) (run script).
Proof.
  unfold Throwing.run, run. repeat sim_step; [apply sim_print | apply sim_run_loop].
Qed.
End SimulationOfMethods.

(** ** The ways out of the [try] block *)

Lemma dtor_result (io : Stdio) st :
  (exists st', Throwing.Server_dtor io st = XReturns tt st' /\ stop st = Returns tt st') \/
  (exists st', Throwing.Server_dtor io st = XTerminates st').
Proof.
  pose proof (sim_noexcept false _ _ (sim_stop io false ltac:(discriminate)) st) as Hsim.
  unfold Throwing.Server_dtor.
  destruct (noexcept (Throwing.stop io) st) as [[] st' | st' | what st' | st'] eqn:Hd.
  - left. eauto.
  - rewrite stop_spec in Hsim. discriminate.
  - unfold noexcept in Hd. destruct (Throwing.stop io st); discriminate.
  - right. eauto.
Qed.


Lemma leave_result (io : Stdio) code out st :
  (exists st', leave io code out st = Exited code out (world st') /\ stop st = Returns tt st') \/
  (exists w', leave io code out st = Terminated out w').
Proof.
  unfold leave. destruct (dtor_result io st) as [(st' & -> & Hstop) | (st' & ->)]; eauto.
Qed.

Lemma handle_exception_result (io : Stdio) what out st :
  (exists st',
     handle_exception io what out st =
       Exited EXIT_FAILURE
         (out ++ [ToStderr (String.append "Server error: " (String.append what LF))])
         (world st') /\
     stop st = Returns tt st') \/
  (exists w', handle_exception io what out st = Terminated out w').
Proof.
  unfold handle_exception, main_print.
  destruct (dtor_result io st) as [(st' & -> & Hstop) | (st' & ->)]; [| eauto].
  destruct (main_print_error io (world st') _); eauto.
Qed.

Lemma leave_failure_words io out st code' out' w' line :
  out = [ToStderr line] ->
  leave io EXIT_FAILURE out st = Exited code' out' w' -> last_words code' out'.
Proof.
  intros -> Hleave.
  destruct (leave_result io EXIT_FAILURE [ToStderr line] st)
    as [(st' & Heq & _) | (w2 & Heq)]; rewrite Heq in Hleave; [| discriminate].
  injection Hleave as <- <- <-. right. split; [reflexivity |]. now exists [], line.
Qed.

Lemma handle_exception_words io what out st code' out' w' :
  handle_exception io what out st = Exited code' out' w' -> last_words code' out'.
Proof.
  intros Hh.
  destruct (handle_exception_result io what out st)
    as [(st' & Heq & _) | (w2 & Heq)]; rewrite Heq in Hh; [| discriminate].
  injection Hh as <- <- <-. right. split; [reflexivity |]. eauto.
Qed.

Lemma main_world_leave io code out st :
  main_world (leave io code out st) = world (xfinal (Throwing.Server_dtor io st)).
Proof. unfold leave. now destruct (Throwing.Server_dtor io st). Qed.

Lemma main_world_handle_exception io what out st :
  main_world (handle_exception io what out st) = world (xfinal (Throwing.Server_dtor io st)).
Proof.
  unfold handle_exception. destruct (Throwing.Server_dtor io st); try reflexivity.
  now destruct (main_print io (world st0) out _).
Qed.

Lemma main_ctor E io script w :
  main E io script w =
    match Throwing.start E io (fresh E 8080 10 w) with
    | XPending st => Serving [] st
    | XTerminates st => Terminated [] (world st)
    | XThrows what st => handle_exception io what [] st
    | XReturns false server1 =>
        match main_print io (world server1) []
                (ToStderr (String.append "Failed to start server" LF)) with
        | inl what => handle_exception io what [] server1
        | inr out => leave io EXIT_FAILURE out server1
        end
    | XReturns true server1 =>
        match main_print io (world server1) []
                (ToStdout (String.append "Server started successfully" LF)) with
        | inl what => handle_exception io what [] server1
        | inr out1 =>
            match main_print io (world server1) out1
                    (ToStdout (String.append "Press Ctrl+C to stop" (String.append LF LF))) with
            | inl what => handle_exception io what out1 server1
            | inr out2 =>
                match Throwing.run io script server1 with
                | XPending st => Serving out2 st
                | XTerminates st => Terminated out2 (world st)
                | XThrows what st => handle_exception io what out2 st
                | XReturns _ server2 => leave io EXIT_SUCCESS out2 server2
                end
            end
        end
    end.
Proof. reflexivity. Qed.

(** Wherever [main] stands, it stands where [start] or [run] left the
    server, with or without the destructor having run after that. *)
Lemma main_world_cases E io script w :
  match Throwing.start E io (fresh E 8080 10 w) with
  | XReturns true st1 =>
      main_world (main E io script w) = world (xfinal (Throwing.Server_dtor io st1)) \/
      main_world (main E io script w) = world (xfinal (Throwing.run io script st1)) \/
      main_world (main E io script w) =
        world (xfinal (Throwing.Server_dtor io (xfinal (Throwing.run io script st1))))
  | XReturns false st1 =>
      main_world (main E io script w) = world (xfinal (Throwing.Server_dtor io st1))
  | XThrows _ st1 =>
      main_world (main E io script w) = world (xfinal (Throwing.Server_dtor io st1))
  | XPending st1 => main_world (main E io script w) = world st1
  | XTerminates st1 => main_world (main E io script w) = world st1
  end.
Proof.
  rewrite main_ctor.
  destruct (Throwing.start E io (fresh E 8080 10 w)) as [[|] st1 | st1 | what st1 | st1];
    try reflexivity.
  - destruct (main_print io (world st1) [] _) as [what | out1];
      [left; apply main_world_handle_exception |].
    destruct (main_print io (world st1) out1 _) as [what | out2];
      [left; apply main_world_handle_exception |].
    destruct (Throwing.run io script st1) as [[] st2 | st2 | what st2 | st2];
      cbn [xfinal].
    + right. right. apply main_world_leave.
    + right. left. reflexivity.
    + right. right. apply main_world_handle_exception.
    + right. left. reflexivity.
  - destruct (main_print io (world st1) [] _) as [what | out1].
    + apply main_world_handle_exception.
    + apply main_world_leave.
  - apply main_world_handle_exception.
Qed.

(** When [main] has returned, the destructor has returned before it, on
    the state in which the [try] block was left. *)
Lemma main_exited_inv E io script w code out w' :
  main E io script w = Exited code out w' ->
  last_words code out /\
  exists left_in st',
    stop left_in = Returns tt st' /\ w' = world st' /\
    ((code = EXIT_FAILURE /\
      left_in = xfinal (Throwing.start E io (fresh E 8080 10 w))) \/
     exists st1,
       Throwing.start E io (fresh E 8080 10 w) = XReturns true st1 /\
       ((code = EXIT_FAILURE /\ left_in = st1) \/
        (code = EXIT_FAILURE /\ exists what, Throwing.run io script st1 = XThrows what left_in) \/
        (code = EXIT_SUCCESS /\ Throwing.run io script st1 = XReturns tt left_in))).
Proof.
  rewrite main_ctor. intros Hmain.
  assert (Hhandle : forall what out0 st,
            handle_exception io what out0 st = Exited code out w' ->
            last_words code out /\ code = EXIT_FAILURE /\
            exists st', stop st = Returns tt st' /\ w' = world st').
  { intros what out0 st Hh. split; [eapply handle_exception_words; exact Hh |].
    destruct (handle_exception_result io what out0 st)
      as [(st' & Heq & Hstop) | (w2 & Heq)]; rewrite Heq in Hh; [| discriminate].
    injection Hh as <- <- <-. eauto. }
  assert (Hleave : forall code0 out0 st,
            leave io code0 out0 st = Exited code out w' ->
            code = code0 /\ out = out0 /\ exists st', stop st = Returns tt st' /\ w' = world st').
  { intros code0 out0 st Hl.
    destruct (leave_result io code0 out0 st)
      as [(st' & Heq & Hstop) | (w2 & Heq)]; rewrite Heq in Hl; [| discriminate].
    injection Hl as <- <- <-. eauto. }
  destruct (Throwing.start E io (fresh E 8080 10 w)) as [[|] st1 | st1 | what st1 | st1];
    try discriminate.
  - unfold main_print in Hmain.
    destruct (main_print_error io (world st1) _) as [what |].
    { apply Hhandle in Hmain. destruct Hmain as (Hw & -> & st' & Hstop & ->).
      split; [exact Hw |]. exists st1, st'. repeat split; try assumption.
      right. exists st1. split; [reflexivity | left; now split]. }
    destruct (main_print_error io (world st1) _) as [what |].
    { apply Hhandle in Hmain. destruct Hmain as (Hw & -> & st' & Hstop & ->).
      split; [exact Hw |]. exists st1, st'. repeat split; try assumption.
      right. exists st1. split; [reflexivity | left; now split]. }
    destruct (Throwing.run io script st1) as [[] st2 | st2 | what st2 | st2] eqn:Hrun;
      try discriminate.
    + apply Hleave in Hmain. destruct Hmain as (-> & -> & st' & Hstop & ->).
      split; [left; now split |]. exists st2, st'. repeat split; try assumption.
      right. exists st1. split; [reflexivity | right; right; now split].
    + apply Hhandle in Hmain. destruct Hmain as (Hw & -> & st' & Hstop & ->).
      split; [exact Hw |]. exists st2, st'. repeat split; try assumption.
      right. exists st1. split; [reflexivity | right; left; split; [reflexivity | eauto]].
  - unfold main_print in Hmain.
    destruct (main_print_error io (world st1) _) as [what |].
    + apply Hhandle in Hmain. destruct Hmain as (Hw & -> & st' & Hstop & ->).
      split; [exact Hw |]. exists st1, st'. repeat split; try assumption. left. now split.
    + apply Hleave in Hmain. destruct Hmain as (-> & -> & st' & Hstop & ->).
      split; [right; split; [reflexivity | now eexists [], _] |].
      exists st1, st'. repeat split; try assumption. left. now split.
  - apply Hhandle in Hmain. destruct Hmain as (Hw & -> & st' & Hstop & ->).
    split; [exact Hw |]. exists st1, st'. repeat split; try assumption. left. now split.
Qed.


Lemma start_true_running E st st1 :
  start E st = Returns true st1 -> m_running (self st1) = true.
Proof.
  intros Hstart. destruct (start_outcome E st) as (st' & Hret & _ & Hrun & _).
  rewrite Hstart in Hret. injection Hret as Hok <-. now rewrite Hrun, <- Hok.
Qed.


(** ** Budgets of calls of the throwing methods *)

Section XBudget.
Context {A B : Type}.

Lemma xwithin_weaken (b b' : call -> nat) (m : MX A) :
  xwithin b m -> (forall k, (b k <= b' k)%nat) -> xwithin b' m.
Proof.
  intros Hm Hle st. destruct (Hm st) as (l & Htrace & Hb).
  exists l. split; [exact Htrace |]. intros k. specialize (Hb k). specialize (Hle k). lia.
Qed.

Lemma xwithin_lift (b : call -> nat) (m : M A) : within b m -> xwithin b (lift m).
Proof.
  intros Hm st. destruct (Hm st) as (l & Htrace & Hb).
  exists l. split; [| exact Hb]. unfold lift. now destruct (m st).
Qed.

Lemma xwithin_ret (a : A) : xwithin none (mret a).
Proof.
  intros st. exists []. split; [now rewrite app_nil_r | intros k; apply Nat.le_refl].
Qed.

Lemma xwithin_bind (b1 b2 : call -> nat) (m : MX A) (f : A -> MX B) :
  xwithin b1 m -> (forall a, xwithin b2 (f a)) ->
  xwithin (fun k => (b1 k + b2 k)%nat) (m ≫= f).
Proof.
  intros Hm Hf st. destruct (Hm st) as (l1 & Htrace1 & Hb1).
  unfold mbind, MX_bind.
  destruct (m st) as [a st1 | st1 | what st1 | st1]; cbn [xfinal] in Htrace1 |- *.
  - destruct (Hf a st1) as (l2 & Htrace2 & Hb2).
    exists (l1 ++ l2). split.
    + now rewrite Htrace2, Htrace1, <- app_assoc.
    + intros k. rewrite calls_app. specialize (Hb1 k). specialize (Hb2 k). lia.
  - exists l1. split; [exact Htrace1 |]. intros k. specialize (Hb1 k). lia.
  - exists l1. split; [exact Htrace1 |]. intros k. specialize (Hb1 k). lia.
  - exists l1. split; [exact Htrace1 |]. intros k. specialize (Hb1 k). lia.
Qed.

Lemma xwithin_if (b1 b2 : call -> nat) (c : bool) (m1 m2 : MX A) :
  xwithin b1 m1 -> xwithin b2 m2 ->
  xwithin (fun k => Nat.max (b1 k) (b2 k)) (if c then m1 else m2).
Proof.
  intros H1 H2. destruct c.
  - eapply xwithin_weaken; [exact H1 | intros k; lia].
  - eapply xwithin_weaken; [exact H2 | intros k; lia].
Qed.

Lemma xwithin_noexcept (b : call -> nat) (m : MX A) : xwithin b m -> xwithin b (noexcept m).
Proof.
  intros Hm st. destruct (Hm st) as (l & Htrace & Hb).
  exists l. split; [| exact Hb]. unfold noexcept. now destruct (m st).
Qed.
End XBudget.

Lemma xwithin_print io msg : xwithin (one CPrint) (Throwing.print io msg).
Proof.
  intros st. unfold Throwing.print.
  destruct (print_error io (world st) msg).
  - exists []. split; [now rewrite app_nil_r | intros k; apply Nat.le_0_l].
  - destruct (within_print msg st) as (l & Htrace & Hb). exists l. now split.
Qed.

Ltac xbudget_step :=
  match goal with
  | |- xwithin _ (_ ≫= _) => eapply xwithin_bind; [| intros ?]
  | |- xwithin _ (mret _) => apply xwithin_ret
  | |- xwithin _ (Throwing.print _ _) => apply xwithin_print
  | |- xwithin _ (noexcept _) => apply xwithin_noexcept
  | |- xwithin _ (if _ then _ else _) => eapply xwithin_if
  | |- xwithin _ (lift (gets _)) => apply xwithin_lift, within_gets
  | |- xwithin _ (lift (modify_self _)) => apply xwithin_lift, within_modify_self
  | |- xwithin _ (lift (perror _)) => apply xwithin_lift, within_perror
  | |- xwithin _ (lift pending) => apply xwithin_lift, within_pending
  | |- xwithin _ (lift (sys_close _)) => apply xwithin_lift, within_sys_close
  | |- xwithin _ (lift (sys_send _ _ _)) => apply xwithin_lift, within_sys_send
  | |- xwithin _ (lift (sys_accept _ _)) => apply xwithin_lift, within_sys_accept
  | |- xwithin _ (lift (sys_listen _ _ _)) => apply xwithin_lift, within_sys_listen
  | |- xwithin _ (lift (createSocket _)) => apply xwithin_lift, within_createSocket
  | |- xwithin _ (lift (bind_loop _ _ _)) => apply xwithin_lift, within_bind_loop
  end.

Ltac xbudget := repeat xbudget_step.

Section XBudgetOfMethods.
Variable E : Env.
Variable io : Stdio.

Lemma xwithin_bindSocket :
  xwithin (fun k => match k with CBind => 11 | CRand => 10 | CPerror | CPrint => 1 | _ => 0 end)%nat
    (Throwing.bindSocket E io).
Proof.
  eapply xwithin_weaken; [unfold Throwing.bindSocket; xbudget | budget_le].
Qed.

Lemma xwithin_listenSocket :
  xwithin (fun k => match k with CListen | CPerror | CPrint => 1 | _ => 0 end)%nat
    (Throwing.listenSocket E io).
Proof.
  eapply xwithin_weaken; [unfold Throwing.listenSocket; xbudget | budget_le].
Qed.

Lemma xwithin_start :
  xwithin (fun k => match k with
                    | CSocket | CSetsockopt | CListen | CClose => 1
                    | CBind => 11
                    | CRand => 10
                    | CPerror => 3
                    | CPrint => 2
                    | CSrand | CAccept | CSend => 0
                    end)%nat
    (Throwing.start E io).
Proof.
  eapply xwithin_weaken.
  - unfold Throwing.start. xbudget; first [apply xwithin_bindSocket | apply xwithin_listenSocket].
  - budget_le.
Qed.

Lemma xwithin_stop :
  xwithin (fun k => match k with CClose | CPrint => 1 | _ => 0 end)%nat (Throwing.stop io).
Proof.
  eapply xwithin_weaken; [unfold Throwing.stop; xbudget | budget_le].
Qed.

Lemma xwithin_dtor :
  xwithin (fun k => match k with CClose | CPrint => 1 | _ => 0 end)%nat
    (Throwing.Server_dtor io).
Proof. unfold Throwing.Server_dtor. apply xwithin_noexcept, xwithin_stop. Qed.
End XBudgetOfMethods.

(** X13: when [start] fails, [main] never reaches the accept loop,
    whichever writes fail and however it ends: in all it seeds the
    generator once, calls neither [accept] nor [send], and calls [close] at
    most twice, once in [start] and once in the destructor. *)
Theorem main_failed_start_serves_nobody (E : Env) (io : Stdio) (script : list arrival)
    (w : World) :
  returned (start E (fresh E 8080 10 w)) = Some false ->
  exists l,
    trace (main_world (main E io script w)) = trace w ++ l /\
    calls CSrand l = 1%nat /\
    calls CAccept l = 0%nat /\
    calls CSend l = 0%nat /\
    (calls CClose l <= 2)%nat.
Proof.
  intros Hfail.
  pose proof (main_world_cases E io script w) as Hcases.
  pose proof (sim_start E io false ltac:(discriminate) (fresh E 8080 10 w)) as Hs.
  destruct (xwithin_start E io (fresh E 8080 10 w)) as (l1 & Htrace1 & Hb1).
  assert (Hfresh : trace (world (fresh E 8080 10 w)) = trace w ++ [EvSrand (env_time E)])
    by reflexivity.
  assert (Hcount : forall l2,
            (forall k, (calls k l2 <= match k with CClose | CPrint => 1 | _ => 0 end)%nat) ->
            calls CSrand ([EvSrand (env_time E)] ++ l1 ++ l2) = 1%nat /\
            calls CAccept ([EvSrand (env_time E)] ++ l1 ++ l2) = 0%nat /\
            calls CSend ([EvSrand (env_time E)] ++ l1 ++ l2) = 0%nat /\
            (calls CClose ([EvSrand (env_time E)] ++ l1 ++ l2) <= 2)%nat).
  { intros l2 Hb2. rewrite !calls_app.
    change (calls CSrand [EvSrand (env_time E)]) with 1%nat.
    change (calls CAccept [EvSrand (env_time E)]) with 0%nat.
    change (calls CSend [EvSrand (env_time E)]) with 0%nat.
    change (calls CClose [EvSrand (env_time E)]) with 0%nat.
    pose proof (Hb1 CSrand). pose proof (Hb1 CAccept). pose proof (Hb1 CSend).
    pose proof (Hb1 CClose). pose proof (Hb2 CSrand). pose proof (Hb2 CAccept).
    pose proof (Hb2 CSend). pose proof (Hb2 CClose).
    cbv beta iota in *. repeat split; lia. }
  assert (Hdtor : forall st1,
            trace (world st1) = (trace w ++ [EvSrand (env_time E)]) ++ l1 ->
            main_world (main E io script w) = world (xfinal (Throwing.Server_dtor io st1)) ->
            exists l,
              trace (main_world (main E io script w)) = trace w ++ l /\
              calls CSrand l = 1%nat /\ calls CAccept l = 0%nat /\
              calls CSend l = 0%nat /\ (calls CClose l <= 2)%nat).
  { intros st1 Hst1 Hworld. destruct (xwithin_dtor io st1) as (l2 & Htrace2 & Hb2).
    exists ([EvSrand (env_time E)] ++ l1 ++ l2). split; [| now apply Hcount].
    rewrite Hworld, Htrace2, Hst1, <- !app_assoc. reflexivity. }
  assert (Hstay : forall st1,
            trace (world st1) = (trace w ++ [EvSrand (env_time E)]) ++ l1 ->
            main_world (main E io script w) = world st1 ->
            exists l,
              trace (main_world (main E io script w)) = trace w ++ l /\
              calls CSrand l = 1%nat /\ calls CAccept l = 0%nat /\
              calls CSend l = 0%nat /\ (calls CClose l <= 2)%nat).
  { intros st1 Hst1 Hworld.
    exists ([EvSrand (env_time E)] ++ l1 ++ []). split.
    - rewrite Hworld, Hst1, app_nil_r, <- !app_assoc. reflexivity.
    - apply Hcount. intros k. destruct k; apply Nat.le_0_l. }
  rewrite Hfresh in Htrace1.
  destruct (Throwing.start E io (fresh E 8080 10 w)) as [[|] st1 | st1 | what st1 | st1];
    cbn [xfinal] in Htrace1.
  - rewrite Hs in Hfail. discriminate.
  - now apply (Hdtor st1).
  - now apply (Hstay st1).
  - now apply (Hdtor st1).
  - now apply (Hstay st1).
Qed.

(** Every port is taken and standard output is closed: [main] reports the
    failed start on standard error, and the destructor's [stop] throws. *)
Lemma main_failed_start_serves_nobody_witness :
  exists l,
    trace (main_world (main Scenario.crowded Faults.deaf_stdout [Scenario.client] Scenario.boot)) =
      trace Scenario.boot ++ l /\
    calls CSrand l = 1%nat /\
    calls CAccept l = 0%nat /\
    calls CSend l = 0%nat /\
    (calls CClose l <= 2)%nat.
Proof.
  apply (main_failed_start_serves_nobody Scenario.crowded Faults.deaf_stdout [Scenario.client]
           Scenario.boot).
  reflexivity.
Defined.

(** ** The server's descriptor through exceptions *)

Section Preservation.
Context {A B : Type}.
Variable P : State -> Prop.

Lemma preserves_ret (a : A) : preserves P (mret a).
Proof. intros st H. exact H. Qed.

Lemma preserves_pending : preserves P (@pending A).
Proof. intros st H. exact H. Qed.

Lemma preserves_gets (f : Server -> A) : preserves P (gets f).
Proof. intros st H. exact H. Qed.

Lemma preserves_getw (f : World -> A) : preserves P (getw f).
Proof. intros st H. exact H. Qed.

Lemma preserves_bind (m : M A) (f : A -> M B) :
  preserves P m -> (forall a, preserves P (f a)) -> preserves P (m ≫= f).
Proof.
  intros Hm Hf st H. specialize (Hm st H). unfold mbind, M_bind.
  destruct (m st) as [a st1 | st1]; [now apply Hf | exact Hm].
Qed.

Lemma xpreserves_ret (a : A) : xpreserves P (mret a).
Proof. intros st H. exact H. Qed.

Lemma xpreserves_lift (m : M A) : preserves P m -> xpreserves P (lift m).
Proof. intros Hm st H. specialize (Hm st H). unfold lift. now destruct (m st). Qed.

Lemma xpreserves_bind (m : MX A) (f : A -> MX B) :
  xpreserves P m -> (forall a, xpreserves P (f a)) -> xpreserves P (m ≫= f).
Proof.
  intros Hm Hf st H. specialize (Hm st H). unfold mbind, MX_bind.
  destruct (m st) as [a st1 | st1 | what st1 | st1]; [now apply Hf | exact Hm ..].
Qed.

Lemma xpreserves_noexcept (m : MX A) : xpreserves P m -> xpreserves P (noexcept m).
Proof. intros Hm st H. specialize (Hm st H). unfold noexcept. now destruct (m st). Qed.
End Preservation.

Section Holding.
Variable fd : Z.
Hypothesis Hfd : 0 <= fd.

Lemma released_emit e w : released fd (emit e w) <-> released fd w.
Proof. reflexivity. Qed.

Lemma released_delete x w :
  released fd w -> released fd (set_fds (delete x (fds w)) w).
Proof.
  unfold released. cbn [fds set_fds]. rewrite lookup_delete.
  case_decide; [trivial | tauto].
Qed.

Lemma released_insert_other x v w :
  x <> fd -> released fd w -> released fd (set_fds (<[x := v]> (fds w)) w).
Proof.
  intros Hx. unfold released. cbn [fds set_fds]. now rewrite lookup_insert_ne.
Qed.

Lemma released_insert_connected x peer input w :
  released fd w -> released fd (set_fds (<[x := Connected peer input]> (fds w)) w).
Proof.
  intros H. destruct (decide (x = fd)) as [-> | Hx].
  - unfold released. cbn [fds set_fds]. now rewrite lookup_insert_eq.
  - now apply released_insert_other.
Qed.

Lemma J_world st w' :
  (released fd (world st) -> released fd w') -> holds_or_released fd st -> holds_or_released fd (mk_State (self st) w').
Proof. intros Hw [H | [Hneg Hrel]]; [now left | right; split; auto]. Qed.

Lemma J_self st s' :
  m_serverSocket s' = m_serverSocket (self st) -> holds_or_released fd st -> holds_or_released fd (mk_State s' (world st)).
Proof.
  intros Hs [H | [Hneg Hrel]]; [left | right]; cbn [self world]; rewrite Hs; auto.
Qed.

Lemma J_log e : preserves (holds_or_released fd) (log e).
Proof. intros st H. apply (J_world st); [| exact H]. now rewrite released_emit. Qed.

Lemma J_modify_self f :
  (forall s, m_serverSocket (f s) = m_serverSocket s) -> preserves (holds_or_released fd) (modify_self f).
Proof. intros Hf st H. now apply J_self. Qed.

Lemma J_sys_rand E : preserves (holds_or_released fd) (sys_rand E).
Proof. intros st H. apply (J_world st); [| exact H]. trivial. Qed.

Lemma J_sys_bind E x addr : preserves (holds_or_released fd) (sys_bind E x addr).
Proof.
  intros st H. unfold sys_bind, mbind, M_bind, getw.
  destruct (fds (world st) !! x) as [[| | |] |] eqn:Hx;
    [destruct (env_busy E (ntohs (sin_port addr))) | | | |];
    cbn [final]; try (apply (J_world st); [| exact H]; now rewrite released_emit).
  apply (J_world st); [| exact H]. intros Hrel. cbn.
  apply released_insert_other; [| exact Hrel].
  intros ->. unfold released in Hrel. now rewrite Hx in Hrel.
Qed.

Lemma J_sys_listen E x backlog : preserves (holds_or_released fd) (sys_listen E x backlog).
Proof.
  intros st H. unfold sys_listen, mbind, M_bind, getw.
  destruct (fds (world st) !! x) as [[| | |] |] eqn:Hx;
    [| destruct (env_listen_ok E) | | |];
    cbn [final]; try (apply (J_world st); [| exact H]; now rewrite released_emit).
  apply (J_world st); [| exact H]. intros Hrel. cbn.
  apply released_insert_other; [| exact Hrel].
  intros ->. unfold released in Hrel. now rewrite Hx in Hrel.
Qed.

Lemma J_sys_close x : preserves (holds_or_released fd) (sys_close x).
Proof.
  intros st H. rewrite sys_close_spec. cbn [final].
  apply (J_world st); [| exact H]. intros Hrel.
  unfold close_world. destruct (fds (world st) !! x); [| exact Hrel].
  apply released_emit. now apply released_delete.
Qed.

Lemma J_sys_send x buf len : preserves (holds_or_released fd) (sys_send x buf len).
Proof. apply J_log. Qed.

Lemma J_sys_accept x a : preserves (holds_or_released fd) (sys_accept x a).
Proof.
  intros st H. unfold sys_accept, mbind, M_bind, modify_world.
  destruct (0 <=? accept_ret a); cbn [final mret M_ret log modify_world].
  - apply (J_world st); [| exact H]. intros Hrel. apply released_emit.
    now apply released_insert_connected.
  - apply (J_world st); [| exact H]. now rewrite released_emit.
Qed.

End Holding.

(** Walks through a computation to show it keeps the invariant. *)
Ltac hold_step :=
  match goal with
  | |- preserves _ (_ ≫= _) => apply preserves_bind; [| intros ?]
  | |- preserves _ (mret _) => apply preserves_ret
  | |- preserves _ pending => apply preserves_pending
  | |- preserves _ (gets _) => apply preserves_gets
  | |- preserves _ (getw _) => apply preserves_getw
  | |- preserves _ (modify_self _) => apply J_modify_self; intros ?; reflexivity
  | |- preserves _ (perror _) => apply J_log
  | |- preserves _ (print _) => apply J_log
  | |- preserves _ (sys_rand _) => apply J_sys_rand
  | |- preserves _ (sys_bind _ _ _) => apply J_sys_bind
  | |- preserves _ (sys_listen _ _ _) => apply J_sys_listen
  | |- preserves _ (sys_close _) => apply J_sys_close
  | |- preserves _ (sys_send _ _ _) => apply J_sys_send
  | |- preserves _ (sys_accept _ _) => apply J_sys_accept
  | |- preserves _ (if ?c then _ else _) => destruct c
  | |- xpreserves _ (_ ≫= _) => apply xpreserves_bind; [| intros ?]
  | |- xpreserves _ (mret _) => apply xpreserves_ret
  | |- xpreserves _ (noexcept _) => apply xpreserves_noexcept
  | |- xpreserves _ (lift _) => apply xpreserves_lift
  | |- xpreserves _ (if ?c then _ else _) => destruct c
  end.

Section HoldingMethods.
Variable E : Env.
Variable io : Stdio.
Variable fd : Z.
Hypothesis Hfd : 0 <= fd.

Lemma J_bind_loop fuel : forall attempts,
  preserves (holds_or_released fd) (bind_loop E fuel attempts).
Proof.
  induction fuel as [| fuel IH]; intros attempts; cbn [bind_loop].
  - apply preserves_pending.
  - repeat hold_step. apply IH.
Qed.

Lemma J_print msg : xpreserves (holds_or_released fd) (Throwing.print io msg).
Proof.
  intros st H. unfold Throwing.print.
  destruct (print_error io (world st) msg); [exact H |].
  now apply (xpreserves_lift _ _ (J_log fd (EvPrint msg))).
Qed.

Lemma J_bindSocket : xpreserves (holds_or_released fd) (Throwing.bindSocket E io).
Proof.
  unfold Throwing.bindSocket. repeat hold_step; first [apply J_bind_loop | apply J_print].
Qed.

Lemma J_listenSocket : xpreserves (holds_or_released fd) (Throwing.listenSocket E io).
Proof. unfold Throwing.listenSocket. repeat hold_step. apply J_print. Qed.

Lemma J_handleClient c addr :
  xpreserves (holds_or_released fd) (Throwing.handleClient io c addr).
Proof. unfold Throwing.handleClient. cbv zeta. repeat hold_step; apply J_print. Qed.

(** [stop] gives up the descriptor it holds only after closing it. *)
Lemma J_stop : xpreserves (holds_or_released fd) (Throwing.stop io).
Proof.
  intros st H. unfold Throwing.stop, mbind, MX_bind, lift, modify_self, gets.
  cbn [self world set_running m_serverSocket].
  destruct (Z.leb_spec 0 (m_serverSocket (self st))) as [Hopen | Hclosed].
  - rewrite sys_close_spec. cbn [self world set_serverSocket].
    assert (Hnew : holds_or_released fd
                     (mk_State (set_serverSocket (-1) (set_running false (self st)))
                        (close_world (m_serverSocket (self st)) (world st)))).
    { right. split; [simpl; lia |]. cbn [world].
      destruct H as [<- | [Hneg _]]; [| lia].
      unfold released. rewrite close_world_fds, lookup_delete_eq. trivial. }
    unfold Throwing.print. cbn [world].
    destruct (print_error io _ MsgStopped); [exact Hnew |].
    now apply (xpreserves_lift _ _ (J_log fd (EvPrint MsgStopped))).
  - cbn [xfinal mret MX_ret].
    now apply (J_self fd st (set_running false (self st))).
Qed.

Lemma J_run_loop script : xpreserves (holds_or_released fd) (Throwing.run_loop io script).
Proof.
  induction script as [| a rest IH]; cbn [Throwing.run_loop].
  - repeat hold_step.
  - repeat hold_step; first [apply J_stop | apply J_handleClient | apply IH].
Qed.

Lemma J_run script : xpreserves (holds_or_released fd) (Throwing.run io script).
Proof. unfold Throwing.run. repeat hold_step; [apply J_print | apply J_run_loop]. Qed.
End HoldingMethods.

Lemma run_loop_returns_closed script : forall st st',
  m_running (self st) = true ->
  0 <= m_serverSocket (self st) ->
  run_loop script st = Returns tt st' ->
  fds (world st') !! m_serverSocket (self st) = None /\ m_serverSocket (self st') < 0.
Proof.
  induction script as [| a rest IH]; intros st st' Hrun Hfd Hret.
  - rewrite run_loop_blocked in Hret by assumption. discriminate.
  - destruct (stop_called a) eqn:Hstop.
    + rewrite run_loop_last in Hret by assumption. injection Hret as <-.
      cbn [self world]. rewrite stop_spec.
      destruct (Z.leb_spec 0 (m_serverSocket (self st))); [| lia].
      cbn [final self world]. split; [| simpl; lia].
      assert (Hgone : fds (emit (EvPrint MsgStopped)
                             (close_world (m_serverSocket (self st)) (world st)))
                        !! m_serverSocket (self st) = None).
      { cbn [fds emit]. rewrite close_world_fds. apply lookup_delete_eq. }
      unfold after_last_arrival. destruct (accept_ret a <? 0); [exact Hgone |].
      cbn [fds served]. rewrite lookup_delete. case_decide; [reflexivity | exact Hgone].
    + rewrite run_loop_arrival in Hret by assumption.
      apply IH in Hret; [exact Hret | exact Hrun | exact Hfd].
Qed.

Lemma createSocket_handle E st :
  m_serverSocket (self (final (createSocket E st))) = env_socket E.
Proof.
  destruct (Z.leb_spec 0 (env_socket E)) as [Hsock | Hsock].
  - destruct (env_setsockopt_ok E) eqn:Hopt.
    + now rewrite createSocket_ok.
    + now rewrite createSocket_no_option.
  - now rewrite createSocket_no_socket.
Qed.

(** However [start] ends, the server holds the descriptor [socket]
    returned. *)
Lemma start_holds E io st :
  0 <= env_socket E ->
  holds_or_released (env_socket E) (xfinal (Throwing.start E io st)).
Proof.
  intros Hsock. unfold Throwing.start.
  unfold mbind at 1, MX_bind at 1, lift at 1.
  pose proof (createSocket_handle E st) as Hhandle.
  destruct (createSocket E st) as [ok st1 | st1]; cbn [final] in Hhandle;
    [| now left].
  assert (H1 : holds_or_released (env_socket E) st1) by now left.
  revert H1. generalize st1.
  change (xpreserves (holds_or_released (env_socket E))
            (if negb ok then mret false
             else
               ok0 ← Throwing.bindSocket E io;
               if negb ok0
               then fd ← lift (gets m_serverSocket); lift (sys_close fd);; mret false
               else
                 ok1 ← Throwing.listenSocket E io;
                 if negb ok1
                 then fd ← lift (gets m_serverSocket); lift (sys_close fd);; mret false
                 else lift (modify_self (set_running true));; mret true)).
  repeat hold_step; first [apply J_bindSocket | apply J_listenSocket].
Qed.

Lemma stop_releases fd st st' :
  0 <= fd -> holds_or_released fd st -> stop st = Returns tt st' ->
  released fd (world st').
Proof.
  intros Hfd H Hstop. rewrite stop_spec in Hstop. injection Hstop as <-.
  destruct (Z.leb_spec 0 (m_serverSocket (self st))) as [Hopen | Hclosed]; cbn [world].
  - destruct H as [<- | [Hneg _]]; [| lia].
    unfold released. cbn [fds emit]. rewrite close_world_fds, lookup_delete_eq. trivial.
  - destruct H as [Heq | [_ Hrel]]; [lia | exact Hrel].
Qed.

(** X10: whenever [main] returns, with either exit code and whether or not
    an exception was caught on the way, the descriptor [socket] gave to the
    server is no socket of the server any more: the destructor's [stop] has
    closed it if [start] or [run] had not.  It is closed, or its number
    names a connection that [accept] returned later and that the handler,
    left by an exception, did not close.  While every write succeeds it is
    closed. *)
Theorem main_releases_socket (E : Env) (io : Stdio) (script : list arrival) (w : World)
    (code : Z) (out : list main_output) (w' : World) :
  main E io script w = Exited code out w' ->
  0 <= env_socket E ->
  released (env_socket E) w' /\
  (reliable io -> fds w' !! env_socket E = None).
Proof.
  intros Hmain Hsock.
  destruct (main_exited_inv E io script w code out w' Hmain)
    as (_ & left_in & st' & Hstop & -> & Hpath).
  pose proof (start_holds E io (fresh E 8080 10 w) Hsock) as Hstart.
  split.
  - apply (stop_releases (env_socket E) left_in); [exact Hsock | | exact Hstop].
    destruct Hpath as [[_ ->] | (st1 & Hs & Hpath)]; [exact Hstart |].
    rewrite Hs in Hstart. cbn [xfinal] in Hstart.
    pose proof (J_run io (env_socket E) Hsock script st1 Hstart) as Hrun.
    destruct Hpath as [[_ ->] | [[_ [what Hr]] | [_ Hr]]];
      [exact Hstart | now rewrite Hr in Hrun | now rewrite Hr in Hrun].
  - intros [Hprint _].
    pose proof (sim_start E io true (fun _ => Hprint) (fresh E 8080 10 w)) as Hsim.
    assert (Hclose : forall st, m_serverSocket (self st) = env_socket E ->
                       stop st = Returns tt st' -> fds (world st') !! env_socket E = None).
    { intros st Hh Hst. rewrite stop_spec, Hh in Hst. injection Hst as <-.
      destruct (Z.leb_spec 0 (env_socket E)); [| lia].
      cbn [world fds emit]. rewrite close_world_fds. apply lookup_delete_eq. }
    assert (Hhandle : forall b st1, start E (fresh E 8080 10 w) = Returns b st1 ->
                        m_serverSocket (self st1) = env_socket E).
    { intros b st1 Hst. destruct (start_outcome E (fresh E 8080 10 w)) as (st2 & Hret & Hh & _).
      rewrite Hst in Hret. now injection Hret as _ <-. }
    destruct Hpath as [[_ ->] | (st1 & Hs & Hpath)].
    + destruct (Throwing.start E io (fresh E 8080 10 w)) as [b st1 | st1 | what st1 | st1];
        try discriminate; cbn [xfinal] in Hstop |- *.
      * apply (Hclose st1); [eapply Hhandle; exact Hsim | exact Hstop].
      * destruct (start_outcome E (fresh E 8080 10 w)) as (st2 & Hret & _).
        rewrite Hsim in Hret. discriminate.
    + rewrite Hs in Hsim.
      pose proof (sim_run io true (fun _ => Hprint) script st1) as Hsimrun.
      destruct Hpath as [[_ ->] | [[_ [what Hr]] | [_ Hr]]].
      * apply (Hclose st1); [eapply Hhandle; exact Hsim | exact Hstop].
      * rewrite Hr in Hsimrun. discriminate.
      * rewrite Hr in Hsimrun. rewrite run_enter in Hsimrun.
        apply run_loop_returns_closed in Hsimrun;
          [| cbn [self]; eapply start_true_running; exact Hsim
           | cbn [self]; rewrite (Hhandle _ _ Hsim); exact Hsock].
        cbn [self] in Hsimrun. rewrite (Hhandle _ _ Hsim) in Hsimrun.
        destruct Hsimrun as [Hgone Hneg].
        rewrite stop_spec in Hstop. injection Hstop as <-.
        destruct (Z.leb_spec 0 (m_serverSocket (self left_in))); [lia | exact Hgone].
Qed.

(** The line that greets a client cannot be written: [run] is left by the
    exception with the client's descriptor 4 still open, the destructor
    closes the listening descriptor 3, and the handler returns
    [EXIT_FAILURE]. *)
Lemma main_releases_socket_witness :
  released 3
    (main_world (main Scenario.quiet Faults.greeting_lost [Scenario.client] Scenario.boot)).
Proof.
  refine (proj1 (main_releases_socket Scenario.quiet Faults.greeting_lost [Scenario.client]
                   Scenario.boot EXIT_FAILURE _ _ _ _)).
  - vm_compute. reflexivity.
  - vm_compute. discriminate.
Defined.


(** ** While every write succeeds *)

Lemma sim_strict_lift {A : Type} (mx : MX A) (m : M A) :
  sim true mx m -> forall st, mx st = lift m st.
Proof.
  intros Hsim st. specialize (Hsim st). unfold lift.
  destruct (mx st) as [a st' | st' | what st' | st']; try discriminate; now rewrite Hsim.
Qed.

(** While no write fails the throwing methods are the plain ones. *)
Lemma throwing_is_plain (E : Env) (io : Stdio) (script : list arrival) (st : State) :
  (forall w msg, print_error io w msg = None) ->
  Throwing.start E io st = lift (start E) st /\
  Throwing.run io script st = lift (run script) st /\
  Throwing.stop io st = lift stop st.
Proof.
  intros Hio. repeat split; apply sim_strict_lift.
  - apply sim_start. intros _. exact Hio.
  - apply sim_run. intros _. exact Hio.
  - apply sim_stop. intros _. exact Hio.
Qed.
